(** * Verification of [copy_db_ids] (ax/storage/sqa_store/utils.py)

    [copy_db_ids(source, target, path)] walks two object graphs in parallel
    and copies every attribute whose name ends in ["_db_id"] from [source]
    to [target], in place.  The graphs live in the Python heap and may share
    objects, so the embedding is a function on an explicit store: objects
    are addressed by locations, values are primitives or references, and
    the function returns the outcome of the call together with the store it
    leaves behind (also when it raises). *)

From Stdlib Require Import ZArith String Ascii List Permutation Lia.
From stdpp Require Import base tactics option list gmap strings pretty sorting.

Open Scope string_scope.
Open Scope list_scope.
Open Scope nat_scope.

(** ** Data model *)

(** Locations of heap-allocated objects. *)
Definition loc := nat.

(** Dictionary keys; the items of [path] are attribute names, [str(index)]
    and raw dictionary keys ([path + [k]]). *)
Inductive key :=
  | KStr (s : string)
  | KInt (n : Z).

(** Where a class stands with respect to [Base] and [SortableBase]
    (declared in ax/utils/common/base.py; [SortableBase] derives from
    [Base]). *)
Inductive base_kind :=
  | NotBase
  | PlainBase
  | Sortable.

Record pyclass := PyClass { cname : string; ckind : base_kind }.

(** Values: what a variable, an attribute or a collection slot holds. *)
Inductive val :=
  | VNone
  | VInt (n : Z)
  | VStr (s : string)
  | VType (name : string)      (* a class object: [isinstance(v, type)] *)
  | VRef (l : loc).            (* a reference to a heap object *)

Inductive coll_kind :=
  | CList
  | CSet
  | CTuple
  | CFrozenset.

(** Heap objects.  An instance carries its class and its [__dict__] in
    insertion order; a collection its items in iteration order; a dict its
    items in insertion order. *)
Inductive obj :=
  | OInst (c : pyclass) (d : list (string * val))
  | OColl (k : coll_kind) (items : list val)
  | ODict (items : list (key * val)).

Abbreviation heap := (gmap loc obj).

(** The result of [type(v)]. *)
Inductive pytype :=
  | TNone
  | TInt
  | TStr
  | TType
  | TColl (k : coll_kind)
  | TDict
  | TClass (c : pyclass).

#[global] Instance key_eq_dec : EqDecision key.
Proof. solve_decision. Defined.
#[global] Instance base_kind_eq_dec : EqDecision base_kind.
Proof. solve_decision. Defined.
#[global] Instance pyclass_eq_dec : EqDecision pyclass.
Proof. solve_decision. Defined.
#[global] Instance val_eq_dec : EqDecision val.
Proof. solve_decision. Defined.
#[global] Instance coll_kind_eq_dec : EqDecision coll_kind.
Proof. solve_decision. Defined.
#[global] Instance pytype_eq_dec : EqDecision pytype.
Proof. solve_decision. Defined.

(** ** Exceptions and outcomes *)

(** The four messages of [SQADecodeError] raised by [copy_db_ids]; the
    constructor arguments are the values interpolated in the message. *)
Inductive mismatch :=
  | DifferentTypes (ty_s ty_t : pytype)
  | DifferentLengths
  | CannotSort (t : pytype)
  | KeyOnlyInSource (k : key).

Inductive exn :=
  | SQADecodeError (path : list key) (why : mismatch)
  | AttributeError (attr : string)     (* [getattr]/[setattr] on a missing attribute *)
  | TypeError                          (* [list(x)], [k in x] or [x[k]] on an object without that operation *)
  | KeyError (k : key)
  | IndexError                         (* list index out of range *)
  | CompareError                       (* whatever [<] raises inside [sorted]: for two dicts, a Python [TypeError] *)
  | RuntimeError.                      (* dictionary changed size during iteration *)

Inductive outcome :=
  | Returned
  | Raised (e : exn)
  | Dangling      (* a reference to no object: not a Python state *)
  | OutOfFuel.    (* the recursion budget of the model ran out *)

Definition result : Type := outcome * heap.

(** ** Strings and dictionaries *)

(** [s.endswith(suffix)] *)
Definition endswith (suffix s : string) : bool :=
  let n := String.length s in
  let k := String.length suffix in
  (k <=? n) && String.eqb (substring (n - k) k s) suffix.

(** [s.startswith(prefix)] *)
Definition startswith (pre s : string) : bool := String.prefix pre s.

(** [attr.endswith("_db_id")] *)
Definition is_db_id (attr : string) : bool := endswith "_db_id" attr.

(** [attr == "_experiment" or attr.startswith("__")] *)
Definition is_skipped (attr : string) : bool :=
  String.eqb attr "_experiment" || startswith "__" attr.

(** [is_foreign_key_field] *)
Definition is_foreign_key_field (field : string) : bool :=
  (3 <? String.length field)
  && String.eqb (substring (String.length field - 3) 3 field) "_id".

Section Dict.
Context {K V : Type} `{EqDecision K}.

(** [d[k]] / [d.get(k)] *)
Fixpoint dict_get (d : list (K * V)) (k : K) : option V :=
  match d with
  | [] => None
  | (k', v) :: d' => if decide (k = k') then Some v else dict_get d' k
  end.

(** [d[k] = v]: an existing key keeps its place, a new key goes last. *)
Fixpoint dict_set (d : list (K * V)) (k : K) (v : V) : list (K * V) :=
  match d with
  | [] => [(k, v)]
  | (k', v') :: d' =>
      if decide (k = k') then (k, v) :: d' else (k', v') :: dict_set d' k v
  end.
End Dict.

(** ** Primitive operations on the store *)

Definition type_of (h : heap) (v : val) : option pytype :=
  match v with
  | VNone => Some TNone
  | VInt _ => Some TInt
  | VStr _ => Some TStr
  | VType _ => Some TType
  | VRef l =>
      match h !! l with
      | Some (OInst c _) => Some (TClass c)
      | Some (OColl k _) => Some (TColl k)
      | Some (ODict _) => Some TDict
      | None => None
      end
  end.

(** [isinstance(v, type)] *)
Definition is_type (v : val) : bool :=
  match v with VType _ => true | _ => false end.

Definition class_is_base (c : pyclass) : bool :=
  match ckind c with NotBase => false | _ => true end.

Definition class_is_sortable (c : pyclass) : bool :=
  match ckind c with Sortable => true | _ => false end.

(** [isinstance(v, Base)] *)
Definition is_base (h : heap) (v : val) : bool :=
  match type_of h v with Some (TClass c) => class_is_base c | _ => false end.

(** [isinstance(v, SortableBase)] *)
Definition is_sortable (h : heap) (v : val) : bool :=
  match type_of h v with Some (TClass c) => class_is_sortable c | _ => false end.

(** [isinstance(source, (list, set))] *)
Definition is_list_or_set (k : coll_kind) : bool :=
  match k with CList | CSet => true | _ => false end.

Definition key_val (k : key) : val :=
  match k with KStr s => VStr s | KInt n => VInt n end.

(** Errors of the primitive operations. *)
Inductive fault :=
  | FDangling
  | FRaise (e : exn).

(** [list(v)].  [copy_db_ids] calls it on [target] once it has the type of
    [source], a list or a set. *)
Definition py_list (h : heap) (v : val) : fault + list val :=
  match v with
  | VRef l =>
      match h !! l with
      | Some (OColl _ xs) => inr xs
      | Some (ODict its) => inr (map (fun kv => key_val (fst kv)) its)
      | Some (OInst _ _) => inl (FRaise TypeError)
      | None => inl FDangling
      end
  | VStr s => inr (map (fun a => VStr (String a EmptyString)) (list_ascii_of_string s))
  | _ => inl (FRaise TypeError)
  end.

(** [getattr(v, attr)]: the instance's [__dict__] only; attributes found on
    the class are outside the model. *)
Definition getattr (h : heap) (v : val) (attr : string) : fault + val :=
  match v with
  | VRef l =>
      match h !! l with
      | Some (OInst _ d) =>
          match dict_get d attr with
          | Some x => inr x
          | None => inl (FRaise (AttributeError attr))
          end
      | Some _ => inl (FRaise (AttributeError attr))
      | None => inl FDangling
      end
  | _ => inl (FRaise (AttributeError attr))
  end.

(** [setattr(v, attr, x)] *)
Definition setattr (h : heap) (v : val) (attr : string) (x : val) : fault + heap :=
  match v with
  | VRef l =>
      match h !! l with
      | Some (OInst c d) => inr (<[l := OInst c (dict_set d attr x)]> h)
      | Some _ => inl (FRaise (AttributeError attr))
      | None => inl FDangling
      end
  | _ => inl (FRaise (AttributeError attr))
  end.

(** [v.__dict__] as the loop over [source.__dict__.items()] sees it. *)
Definition instance_dict (h : heap) (v : val) : option (list (string * val)) :=
  match v with
  | VRef l => match h !! l with Some (OInst _ d) => Some d | _ => None end
  | _ => None
  end.

(** [k in v]; [copy_db_ids] asks it of a dict. *)
Definition py_contains (h : heap) (v : val) (k : key) : fault + bool :=
  match v with
  | VRef l =>
      match h !! l with
      | Some (ODict its) => inr (bool_decide (is_Some (dict_get its k)))
      | Some (OColl _ xs) => inr (bool_decide (key_val k ∈ xs))
      | Some (OInst _ _) => inl (FRaise TypeError)
      | None => inl FDangling
      end
  | _ => inl (FRaise TypeError)
  end.

(** [v[k]]; [copy_db_ids] asks it of a dict. *)
Definition py_getitem (h : heap) (v : val) (k : key) : fault + val :=
  match v with
  | VRef l =>
      match h !! l with
      | Some (ODict its) =>
          match dict_get its k with
          | Some x => inr x
          | None => inl (FRaise (KeyError k))
          end
      | Some _ => inl (FRaise TypeError)
      | None => inl FDangling
      end
  | _ => inl (FRaise TypeError)
  end.

(** The heap object a value refers to, if it is a reference. *)
Definition deref (h : heap) (v : val) : option obj :=
  match v with VRef l => h !! l | _ => None end.

Definition fail (f : fault) (h : heap) : result :=
  match f with
  | FDangling => (Dangling, h)
  | FRaise e => (Raised e, h)
  end.

(** [str(index)] *)
Definition str_of_index (i : nat) : key := KStr (pretty i).

(** ** The function *)

Section CopyDbIds.

(** Python's [<] on the values of the store.  On instances it dispatches
    to [__lt__], which [SortableBase] and its subclasses declare outside
    this module, so it is a parameter; [None] stands for a comparison
    that raises. *)
Variable py_lt : heap -> val -> val -> option bool.

(** [sorted(l)]: a stable sort that only uses [<].  The model inserts the
    items from left to right, each one behind the items it is not smaller
    than, as CPython's binary insertion does on short lists; it raises as
    soon as a comparison it makes raises. *)
Fixpoint insort (h : heap) (x : val) (l : list val) : option (list val) :=
  match l with
  | [] => Some [x]
  | y :: l' =>
      match py_lt h x y with
      | None => None
      | Some true => Some (x :: y :: l')
      | Some false => cons y <$> insort h x l'
      end
  end.

Definition sorted_from (h : heap) (acc : option (list val)) (l : list val)
  : option (list val) :=
  foldl (fun acc x => acc ≫= insort h x) acc l.

Definition sorted (h : heap) (l : list val) : option (list val) :=
  sorted_from h (Some []) l.

(** A recursive call of [copy_db_ids]. *)
Definition rec_call : Type := heap -> val -> val -> list key -> result.

(** [for attr, val in source.__dict__.items(): ...].  The items view is
    live: every step reads the dictionary as it is then, and the iterator
    raises when its size has changed.  [i] is the position of the
    iterator, [todo] the number of items left, [size0] the size the
    dictionary had when the loop started. *)
Fixpoint attrs_loop (rec : rec_call) (todo i size0 : nat) (h : heap)
    (source target : val) (path : list key) : result :=
  match instance_dict h source with
  | None => (Dangling, h)
  | Some d =>
      if negb (length d =? size0) then (Raised RuntimeError, h)
      else
        match todo with
        | 0 => (Returned, h)
        | S todo' =>
            match d !! i with
            | None => (Returned, h)
            | Some (attr, v) =>
                if is_db_id attr then
                  (* we're at a "leaf" node; copy the db_id and return *)
                  match setattr h target attr v with
                  | inl f => fail f h
                  | inr h' =>
                      attrs_loop rec todo' (S i) size0 h' source target path
                  end
                else if is_skipped attr then
                  attrs_loop rec todo' (S i) size0 h source target path
                else
                  match getattr h target attr with
                  | inl f => fail f h
                  | inr tv =>
                      match rec h v tv (path ++ [KStr attr]) with
                      | (Returned, h') =>
                          attrs_loop rec todo' (S i) size0 h' source target path
                      | r => r
                      end
                  end
            end
        end
  end.

(** [for index, x in enumerate(source): copy_db_ids(x, target[index], ...)]
    over the two sorted lists. *)
Fixpoint seq_loop (rec : rec_call) (index : nat) (h : heap)
    (source target : list val) (path : list key) : result :=
  match source with
  | [] => (Returned, h)
  | x :: source' =>
      match target !! index with
      | None => (Raised IndexError, h)
      | Some y =>
          match rec h x y (path ++ [str_of_index index]) with
          | (Returned, h') => seq_loop rec (S index) h' source' target path
          | r => r
          end
      end
  end.

(** [for k, v in source.items(): ...] over a dict.  Dict objects are never
    written by this function, so the items are those at loop entry. *)
Fixpoint dict_loop (rec : rec_call) (h : heap) (items : list (key * val))
    (target : val) (path : list key) : result :=
  match items with
  | [] => (Returned, h)
  | (k, v) :: items' =>
      match py_contains h target k with
      | inl f => fail f h
      | inr false => (Raised (SQADecodeError path (KeyOnlyInSource k)), h)
      | inr true =>
          match py_getitem h target k with
          | inl f => fail f h
          | inr tv =>
              match rec h v tv (path ++ [k]) with
              | (Returned, h') => dict_loop rec h' items' target path
              | r => r
              end
          end
      end
  end.

(** The [list]/[set] branch, after [source = list(source)] and
    [target = list(target)]. *)
Definition copy_seq (rec : rec_call) (h : heap) (source target : list val)
    (path : list key) : result :=
  if negb (length source =? length target) then
    (Raised (SQADecodeError path DifferentLengths), h)
  else
    match source with
    | [] => (Returned, h)
    | x0 :: _ =>
        (* Safe to skip over lists of types (e.g. transforms) *)
        if is_type x0 then (Returned, h)
        else if is_base h x0 && negb (is_sortable h x0) then
          match type_of h x0 with
          | Some t0 => (Raised (SQADecodeError path (CannotSort t0)), h)
          | None => (Dangling, h)
          end
        else
          match sorted h source with
          | None => (Raised CompareError, h)
          | Some source' =>
              match sorted h target with
              | None => (Raised CompareError, h)
              | Some target' => seq_loop rec 0 h source' target' path
              end
          end
    end.

(** The body of [copy_db_ids], with its recursive calls going to [rec].
    [path] is the list the function works with after
    [if not path: path = []].  The message prefix, built from
    [str(source)] and [str(target)], is not part of the model: an error
    carries the path and the values its message interpolates. *)
Definition copy_db_ids_body (rec : rec_call) (h : heap)
    (source target : val) (path : list key) : result :=
  if 10 <? length path then
    (* a precaution against accidentally introducing infinite loops *)
    (Returned, h)
  else
    match type_of h source, type_of h target with
    | Some ty_s, Some ty_t =>
        if decide (ty_s <> ty_t) then
          (Raised (SQADecodeError path (DifferentTypes ty_s ty_t)), h)
        else
          match deref h source with
          | Some (OInst c d) =>
              if class_is_base c then
                attrs_loop rec (length d) 0 (length d) h source target path
              else (Returned, h)
          | Some (OColl k xs) =>
              if is_list_or_set k then
                match py_list h target with
                | inl f => fail f h
                | inr ys => copy_seq rec h xs ys path
                end
              else (Returned, h)
          | Some (ODict items) => dict_loop rec h items target path
          | None => (Returned, h)
          end
    | _, _ => (Dangling, h)
    end.

(** The recursion: every call lengthens [path] by one and the guard stops
    at length 11, so a budget of 12 nested calls is never used up
    ([copy_db_ids_fuel_enough] below). *)
Fixpoint copy_db_ids_fuel (fuel : nat) (h : heap) (source target : val)
    (path : list key) : result :=
  match fuel with
  | 0 => (OutOfFuel, h)
  | S fuel' => copy_db_ids_body (copy_db_ids_fuel fuel') h source target path
  end.

Definition copy_db_ids (h : heap) (source target : val) (path : list key)
  : result :=
  copy_db_ids_fuel 12 h source target path.

End CopyDbIds.

(** [t'] is a value the traversal reads off [target] to recurse into, where
    [target] has the type it has in [h0] and is read in [h]: the value of
    an attribute of a [Base] instance that is neither an identifier field
    nor skipped (lines 46-58), an item of a list or set (lines 60-82), or a
    value of a dictionary (lines 84-91). *)
Definition child_at (h0 h : heap) (target t' : val) : Prop :=
  (is_base h0 target = true /\
   exists attr, is_db_id attr = false /\ is_skipped attr = false /\
                getattr h target attr = inr t')
  \/ (exists k ys, type_of h0 target = Some (TColl k) /\
                   is_list_or_set k = true /\
                   py_list h0 target = inr ys /\ t' ∈ ys)
  \/ (exists k, py_getitem h target k = inr t').

Definition child (h : heap) (target t' : val) : Prop :=
  child_at h h target t'.


(** ** An instance of the order, and example stores *)

(** An order as [SortableBase] subclasses give it: integers and strings
    compare as in Python, two [SortableBase] instances by the string in
    their [name] attribute (their [_unique_id]); everything else raises. *)
Definition lt_by_name (h : heap) (a b : val) : option bool :=
  match a, b with
  | VInt x, VInt y => Some (Z.ltb x y)
  | VStr x, VStr y => Some (String.ltb x y)
  | VRef _, VRef _ =>
      if is_sortable h a && is_sortable h b then
        match getattr h a "name", getattr h b "name" with
        | inr (VStr x), inr (VStr y) => Some (String.ltb x y)
        | _, _ => None
        end
      else None
  | _, _ => None
  end.

Definition Obj : pyclass := PyClass "Obj" PlainBase.
Definition Arm : pyclass := PyClass "Arm" Sortable.

Definition deep_path : list key :=
  map KStr ["a"; "b"; "c"; "d"; "e"; "f"; "g"; "h"; "i"; "j"; "k"].

(** [source = Obj(_db_id=7, arms=[])], [target = Obj(_db_id=None, arms=[1])] *)
Definition partial_store : heap :=
  list_to_map
    [ (0, OInst Obj [("_db_id", VInt 7); ("arms", VRef 1)]);
      (1, OColl CList []);
      (2, OInst Obj [("_db_id", VNone); ("arms", VRef 3)]);
      (3, OColl CList [VInt 1]) ].

(** [source = (Obj(_db_id=1),)], [target = (Obj(_db_id=None), 5)] *)
Definition tuple_store : heap :=
  list_to_map
    [ (0, OColl CTuple [VRef 1]);
      (1, OInst Obj [("_db_id", VInt 1)]);
      (2, OColl CTuple [VRef 3; VInt 5]);
      (3, OInst Obj [("_db_id", VNone)]) ].

(** A result that keeps an invariant of the store and has an acceptable
    outcome. *)
Definition good (Inv : heap -> Prop) (Q : outcome -> Prop) (r : result) : Prop :=
  Inv (snd r) /\ Q (fst r).

(** ** What a call may change *)

(** Two attribute dictionaries with the same non-identifier fields. *)
Definition same_fields (d d' : list (string * val)) : Prop :=
  forall a, is_db_id a = false -> dict_get d' a = dict_get d a.

(** [h'] differs from [h] at most in the identifier fields of instances:
    no object appears or disappears, collections and dicts are as they
    were, instances keep their class and their non-identifier fields. *)
Definition only_ids_changed (h h' : heap) : Prop :=
  forall l,
    match h !! l with
    | Some (OInst c d) => exists d', h' !! l = Some (OInst c d') /\ same_fields d d'
    | o => h' !! l = o
    end.

(** The objects the traversal of [target] can get to: [target] itself and
    whatever is reached from it through the attributes of [Base] instances
    that the loop recurses into (not the identifier fields, not
    [_experiment], not the names starting with [__]), the items of lists
    and sets, and the values of dictionaries. *)
Inductive visits (h : heap) : val -> loc -> Prop :=
  | visits_here l : visits h (VRef l) l
  | visits_child t t' l : child h t t' -> visits h t' l -> visits h t l.

(** The values an object holds. *)
Definition holds (o : obj) (v : val) : Prop :=
  match o with
  | OInst _ d => exists a, (a, v) ∈ d
  | OColl _ xs => v ∈ xs
  | ODict items => exists k, (k, v) ∈ items
  end.

(** The objects reachable from a value, through any attribute, item or
    dict value. *)
Inductive reachable (h : heap) : val -> loc -> Prop :=
  | reachable_here l : reachable h (VRef l) l
  | reachable_step l o v l' :
      h !! l = Some o -> holds o v -> reachable h v l' -> reachable h (VRef l) l'.

(** [source = Obj(_db_id=1, _experiment=target)],
    [target = Obj(_db_id=None, _experiment=None)]: the target is an object
    of the source graph. *)
Definition alias_store : heap :=
  list_to_map
    [ (0, OInst Obj [("_db_id", VInt 1); ("_experiment", VRef 1)]);
      (1, OInst Obj [("_db_id", VNone); ("_experiment", VNone)]) ].

(** [source = Obj(_db_id=7, name="x")], [target = Obj(_db_id=None, name="x")] *)
Definition pair_store : heap :=
  list_to_map
    [ (0, OInst Obj [("_db_id", VInt 7); ("name", VStr "x")]);
      (1, OInst Obj [("_db_id", VNone); ("name", VStr "x")]) ].

(** ** The calls of a traversal *)

(** A call of [copy_db_ids]: the store at the time of the call and the
    three arguments. *)
Record call := Call {
  c_heap : heap;
  c_source : val;
  c_target : val;
  c_path : list key
}.

Section Calls.
Variable py_lt : heap -> val -> val -> option bool.
Variable rec : rec_call.

(** [calls c c']: the body, run on [c] with its recursive calls answered by
    [rec], makes the recursive call [c'].  The iterations before the one
    that makes the call have returned normally and left the store
    [c_heap c']. *)
Inductive calls : call -> call -> Prop :=
  | calls_attr h s t p c d i h1 d1 attr v tv :
      length p <= 10 ->
      type_of h t = Some (TClass c) ->
      deref h s = Some (OInst c d) ->
      class_is_base c = true ->
      attrs_loop rec i 0 (length d) h s t p = (Returned, h1) ->
      instance_dict h1 s = Some d1 ->
      d1 !! i = Some (attr, v) ->
      is_db_id attr = false ->
      is_skipped attr = false ->
      getattr h1 t attr = inr tv ->
      calls (Call h s t p) (Call h1 v tv (p ++ [KStr attr]))
  | calls_item h s t p k x0 xs ys sx sy i h1 x y :
      length p <= 10 ->
      type_of h t = Some (TColl k) ->
      deref h s = Some (OColl k (x0 :: xs)) ->
      is_list_or_set k = true ->
      py_list h t = inr ys ->
      length (x0 :: xs) = length ys ->
      is_type x0 = false ->
      is_base h x0 && negb (is_sortable h x0) = false ->
      sorted py_lt h (x0 :: xs) = Some sx ->
      sorted py_lt h ys = Some sy ->
      seq_loop rec 0 h (take i sx) sy p = (Returned, h1) ->
      sx !! i = Some x ->
      sy !! i = Some y ->
      calls (Call h s t p) (Call h1 x y (p ++ [str_of_index i]))
  | calls_value h s t p pre k v post h1 tv :
      length p <= 10 ->
      type_of h t = Some TDict ->
      deref h s = Some (ODict (pre ++ (k, v) :: post)) ->
      dict_loop rec h pre t p = (Returned, h1) ->
      py_contains h1 t k = inr true ->
      py_getitem h1 t k = inr tv ->
      calls (Call h s t p) (Call h1 v tv (p ++ [k])).
End Calls.

(** The result of a call. *)
Definition run py_lt (c : call) : result :=
  copy_db_ids py_lt (c_heap c) (c_source c) (c_target c) (c_path c).

(** [c] is the root call or a call the traversal started by [root] makes,
    at any depth. *)
Definition recursed_into py_lt (root c : call) : Prop :=
  rtc (calls py_lt (copy_db_ids py_lt)) root c.

(** [c] is recursed into with a path of at most 10 items, so that the depth
    guard lets the call through. *)
Definition reached py_lt (root c : call) : Prop :=
  recursed_into py_lt root c /\ length (c_path c) <= 10.

(** A chain of [n + 1] objects, each the [child] of the one before; the
    last one holds [leaf]. *)
Fixpoint chain (base : loc) (n : nat) (leaf : val) : list (loc * obj) :=
  match n with
  | 0 => [(base, OInst Obj [("child", leaf)])]
  | S n' => (base, OInst Obj [("child", VRef (S base))]) :: chain (S base) n' leaf
  end.

(** Two chains of eleven objects; eleven attributes down, [source] holds
    the integer [1] and [target] the string ["a"]. *)
Definition chain_store : heap :=
  list_to_map (chain 0 10 (VInt 1) ++ chain 20 10 (VStr "a")).

(** [source = Obj(_db_id=7, name="x")], [target = Obj(_db_id=None, name=3)] *)
Definition mismatch_store : heap :=
  list_to_map
    [ (0, OInst Obj [("_db_id", VInt 7); ("name", VStr "x")]);
      (1, OInst Obj [("_db_id", VNone); ("name", VInt 3)]) ].

(** [source = [{}]], [target = [{}]] *)
Definition dict_list_store : heap :=
  list_to_map
    [ (0, OColl CList [VRef 1]); (1, ODict []);
      (2, OColl CList [VRef 3]); (3, ODict []) ].

(** [source = [Obj(_db_id=1)]], [target = [Obj(_db_id=None)]]: [Obj] is a
    [Base] that is not a [SortableBase]. *)
Definition unsortable_store : heap :=
  list_to_map
    [ (0, OColl CList [VRef 1]); (1, OInst Obj [("_db_id", VInt 1)]);
      (2, OColl CList [VRef 3]); (3, OInst Obj [("_db_id", VNone)]) ].

(** [source = {"a": 1, "b": 2}], [target = {"a": "x"}] *)
Definition two_keys_store : heap :=
  list_to_map
    [ (0, ODict [(KStr "a", VInt 1); (KStr "b", VInt 2)]);
      (1, ODict [(KStr "a", VStr "x")]) ].

(** [source = {"a": Obj(_db_id=1)}]; as [target], [{}] and two dicts with
    [Obj(_db_id=None)] under ["a"], one of them with a further key. *)
Definition missing_key_store : heap :=
  list_to_map
    [ (0, ODict [(KStr "a", VRef 4)]);
      (1, ODict []);
      (2, ODict [(KStr "a", VRef 5); (KStr "z", VNone)]);
      (3, ODict [(KStr "a", VRef 5)]);
      (4, OInst Obj [("_db_id", VInt 1)]);
      (5, OInst Obj [("_db_id", VNone)]) ].

(** [source = Obj(_db_id="A", child=Obj(_db_id="B"))],
    [target = Obj(_db_id=None, child=Obj(_db_id=None))] *)
Definition nested_store : heap :=
  list_to_map
    [ (0, OInst Obj [("_db_id", VStr "A"); ("child", VRef 1)]);
      (1, OInst Obj [("_db_id", VStr "B")]);
      (2, OInst Obj [("_db_id", VNone); ("child", VRef 3)]);
      (3, OInst Obj [("_db_id", VNone)]) ].

(** Two objects that are their own [next]. *)
Definition cyclic_store : heap :=
  list_to_map
    [ (0, OInst Obj [("_db_id", VInt 1); ("next", VRef 0)]);
      (1, OInst Obj [("_db_id", VNone); ("next", VRef 1)]) ].

(** ** Orderable items *)

Section Order.
Variable py_lt : heap -> val -> val -> option bool.

(** [x == y or x < y] *)
Definition py_le (h : heap) (x y : val) : Prop :=
  x = y \/ py_lt h x y = Some true.

(** [<] is a strict total order on the items of [xs]: it raises on no two
    of them, and of two different items one is smaller than the other. *)
Definition strict_total_order (h : heap) (xs : list val) : Prop :=
  (forall x y, x ∈ xs -> y ∈ xs -> is_Some (py_lt h x y))
  /\ (forall x, x ∈ xs -> py_lt h x x = Some false)
  /\ (forall x y z, x ∈ xs -> y ∈ xs -> z ∈ xs ->
        py_lt h x y = Some true -> py_lt h y z = Some true ->
        py_lt h x z = Some true)
  /\ (forall x y, x ∈ xs -> y ∈ xs -> x <> y ->
        py_lt h x y = Some true \/ py_lt h y x = Some true).

(** What the code asks of an item it is about to sort: it is an instance,
    not a type, and if it is a [Base] it is a [SortableBase]. *)
Definition has_order (h : heap) (x : val) : Prop :=
  is_type x = false /\ (is_base h x = true -> is_sortable h x = true).

(** The items of [xs] can be sorted, and in one way only: the code agrees
    to sort each of them, and [<] is a strict total order on them, so that
    no two different items compare equal. *)
Definition mutually_orderable (h : heap) (xs : list val) : Prop :=
  Forall (has_order h) xs /\ strict_total_order h xs.
End Order.

(** A list of two [Arm]s and a set of the same two, iterated the other way
    round; the target list and set likewise. *)
Definition arms_store : heap :=
  list_to_map
    [ (0, OColl CList [VRef 1; VRef 2]);
      (1, OInst Arm [("name", VStr "b"); ("_db_id", VInt 1)]);
      (2, OInst Arm [("name", VStr "a"); ("_db_id", VInt 2)]);
      (3, OColl CList [VRef 4; VRef 5]);
      (4, OInst Arm [("name", VStr "a"); ("_db_id", VNone)]);
      (5, OInst Arm [("name", VStr "b"); ("_db_id", VNone)]);
      (6, OColl CSet [VRef 2; VRef 1]);
      (7, OColl CSet [VRef 5; VRef 4]) ].

(** The target arms of [arms_store] and their sources: the arms of the
    same name. *)
Definition arms_pairing : gmap loc loc := list_to_map [ (4, 2); (5, 1) ].

(** ** Corresponding positions of two graphs *)

(** The types on which the traversal does nothing. *)
Definition is_leaf_type (ty : pytype) : bool :=
  match ty with
  | TClass c => negb (class_is_base c)
  | TColl k => negb (is_list_or_set k)
  | TDict => false
  | _ => true
  end.

(** [source] and [target] have the same type and there is nothing to
    traverse. *)
Definition leaf_pair (h : heap) (s t : val) : Prop :=
  exists ty, type_of h s = Some ty /\ type_of h t = Some ty /\ is_leaf_type ty = true.

Section Correspondence.
Variable py_lt : heap -> val -> val -> option bool.
(** The pairing of the instances of the two graphs: [m !! lt = Some ls]
    when the target instance [lt] stands for the source instance [ls]. *)
Variable m : gmap loc loc.
(** What is asked of a target instance and the source instance it is
    paired with. *)
Variable P : loc -> loc -> Prop.

(** [corresponds h depth s t]: [s] and [t] are at corresponding positions
    of two graphs of the same shape, as the traversal pairs them: instances
    of the same [Base] class, attribute by attribute except for the
    identifier fields, [_experiment] and the names that start with [__];
    lists or sets of the same length, item by item in sorted order, unless
    they are empty or lists of types; dicts, value by value, for the keys
    of the source.  A target instance is paired with one source instance,
    which is not itself a target.  [depth] is the number of path items
    left before the depth guard: at 0 only a leaf is allowed. *)
Fixpoint corresponds (h : heap) (depth : nat) (s t : val) : Prop :=
  match depth with
  | 0 => leaf_pair h s t
  | S depth' =>
      leaf_pair h s t
      \/ (exists ls lt c ds dt,
            s = VRef ls /\ t = VRef lt
            /\ h !! ls = Some (OInst c ds) /\ h !! lt = Some (OInst c dt)
            /\ class_is_base c = true
            /\ NoDup ds.*1
            /\ m !! lt = Some ls /\ m !! ls = None
            /\ P lt ls
            /\ forall attr v, dict_get ds attr = Some v ->
                 is_db_id attr = false -> is_skipped attr = false ->
                 exists tv, dict_get dt attr = Some tv
                            /\ corresponds h depth' v tv)
      \/ (exists ls lt k xs ys,
            s = VRef ls /\ t = VRef lt
            /\ h !! ls = Some (OColl k xs) /\ h !! lt = Some (OColl k ys)
            /\ is_list_or_set k = true
            /\ length xs = length ys
            /\ match xs with
               | [] => True
               | x0 :: _ =>
                   is_type x0 = true
                   \/ (is_type x0 = false
                       /\ is_base h x0 && negb (is_sortable h x0) = false
                       /\ exists sx sy,
                            sorted py_lt h xs = Some sx
                            /\ sorted py_lt h ys = Some sy
                            /\ Forall2 (corresponds h depth') sx sy)
               end)
      \/ (exists ls lt items titems,
            s = VRef ls /\ t = VRef lt
            /\ h !! ls = Some (ODict items) /\ h !! lt = Some (ODict titems)
            /\ forall k v, (k, v) ∈ items ->
                 exists tv, dict_get titems k = Some tv
                            /\ corresponds h depth' v tv)
  end.
End Correspondence.

(** The two graphs have the same shape. *)
Definition isomorphic py_lt (m : gmap loc loc) (h : heap) (depth : nat)
    (s t : val) : Prop :=
  corresponds py_lt m (fun _ _ => True) h depth s t.

(** In [h], the instance [lt] has the field [a] with value [v]. *)
Definition synced_at (h : heap) (lt : loc) (a : string) (v : val) : Prop :=
  exists c dt, h !! lt = Some (OInst c dt) /\ dict_get dt a = Some v.

(** In [h'], the target instance [lt] has the value of the source instance
    [ls] (as it is in [h]) in every field of [ls] whose name ends in
    ["_db_id"]. *)
Definition ids_copied (h h' : heap) (lt ls : loc) : Prop :=
  forall c ds a v,
    h !! ls = Some (OInst c ds) -> dict_get ds a = Some v -> is_db_id a = true ->
    synced_at h' lt a v.

(** The stores a traversal of graphs paired by [m] goes through, starting
    from [h0]: only identifier fields differ from [h0], and only in the
    target instances. *)
Definition evolved (m : gmap loc loc) (h0 hc : heap) : Prop :=
  only_ids_changed h0 hc /\ forall l, m !! l = None -> hc !! l = h0 !! l.

(** From [hc] to [hc'] no target field that had the identifier of its
    source loses it. *)
Definition keeps_synced (m : gmap loc loc) (h0 hc hc' : heap) : Prop :=
  forall lt ls c ds a v,
    m !! lt = Some ls -> h0 !! ls = Some (OInst c ds) ->
    dict_get ds a = Some v -> is_db_id a = true ->
    synced_at hc lt a v -> synced_at hc' lt a v.

(** [source = Obj(_db_id=1, _experiment=Obj(_db_id=5))],
    [target = Obj(_db_id=None, _experiment=Obj(_db_id=None))] *)
Definition backref_store : heap :=
  list_to_map
    [ (0, OInst Obj [("_db_id", VInt 1); ("_experiment", VRef 1)]);
      (1, OInst Obj [("_db_id", VInt 5)]);
      (2, OInst Obj [("_db_id", VNone); ("_experiment", VRef 3)]);
      (3, OInst Obj [("_db_id", VNone)]) ].

(** [source = (Obj(_db_id=1),)], [target = (Obj(_db_id=None),)] *)
Definition tuple_pair_store : heap :=
  list_to_map
    [ (0, OColl CTuple [VRef 1]); (1, OInst Obj [("_db_id", VInt 1)]);
      (2, OColl CTuple [VRef 3]); (3, OInst Obj [("_db_id", VNone)]) ].

(** [source = Obj(_db_id=10, title="t", arms=[Arm("b", 1), Arm("a", 2)])],
    [target = Obj(_db_id=None, title="t", arms=[Arm("a", None), Arm("b", None)])] *)
Definition experiment_store : heap :=
  list_to_map
    [ (0, OInst Obj [("_db_id", VInt 10); ("title", VStr "t"); ("arms", VRef 1)]);
      (1, OColl CList [VRef 2; VRef 3]);
      (2, OInst Arm [("name", VStr "b"); ("_db_id", VInt 1)]);
      (3, OInst Arm [("name", VStr "a"); ("_db_id", VInt 2)]);
      (10, OInst Obj [("_db_id", VNone); ("title", VStr "t"); ("arms", VRef 11)]);
      (11, OColl CList [VRef 12; VRef 13]);
      (12, OInst Arm [("name", VStr "a"); ("_db_id", VNone)]);
      (13, OInst Arm [("name", VStr "b"); ("_db_id", VNone)]) ].

(** The target instances of [experiment_store] and their sources. *)
Definition experiment_pairing : gmap loc loc :=
  list_to_map [ (10, 0); (12, 3); (13, 2) ].

(** What the induction on the depth shows at depth [d]: from any store the
    traversal goes through, a call on two graphs of the same shape returns
    normally, keeps the identifiers already copied and copies those of the
    positions it pairs. *)
Definition copies_ok py_lt (m : gmap loc loc) (h0 : heap) (d : nat) : Prop :=
  forall hc s t p,
    d = 11 - length p -> evolved m h0 hc -> isomorphic py_lt m h0 d s t ->
    exists hc',
      copy_db_ids py_lt hc s t p = (Returned, hc')
      /\ evolved m h0 hc' /\ keeps_synced m h0 hc hc'
      /\ corresponds py_lt m (ids_copied h0 hc') h0 d s t.

(** ** The outcomes of a call *)

(** What the body of a call on [path] answers by itself, its recursive calls
    apart: it returns, or raises [SQADecodeError] with its own path, the
    [AttributeError] of [getattr(target, attr)], the error of [<] or the
    error of the dictionary iterator. *)
Definition own_outcome (path : list key) (o : outcome) : Prop :=
  match o with
  | Returned | Dangling => True
  | Raised (SQADecodeError q _) => q = path
  | Raised (AttributeError _) | Raised CompareError | Raised RuntimeError => True
  | Raised TypeError | Raised (KeyError _) | Raised IndexError => False
  | OutOfFuel => False
  end.

(** The outcomes a call can have at all: it returns, or raises
    [SQADecodeError], [AttributeError], the error of [<] inside [sorted]
    ([CompareError], which for two dicts is a Python [TypeError]) or the
    error of the dictionary iterator.  It does not fail in [list(target)],
    [k in target] or [target[k]] for want of the operation (the model's
    [TypeError]), nor with [KeyError] or [IndexError].  The errors of
    [str(source)] and [str(target)] in the message prefix are, like the
    prefix, outside the model. *)
Definition possible_outcome (o : outcome) : Prop :=
  match o with
  | Raised TypeError | Raised (KeyError _) | Raised IndexError => False
  | OutOfFuel => False
  | _ => True
  end.

(** [source = [{}, {}]], [target = [{}, {}]] *)
Definition two_dicts_store : heap :=
  list_to_map
    [ (0, OColl CList [VRef 1; VRef 2]); (1, ODict []); (2, ODict []);
      (3, OColl CList [VRef 4; VRef 5]); (4, ODict []); (5, ODict []) ].

(** [source = [Arm, Obj(_db_id=1)]], [target = [Arm, Obj(_db_id=None)]]: a
    list that starts with a type. *)
Definition types_store : heap :=
  list_to_map
    [ (0, OColl CList [VType "Arm"; VRef 1]); (1, OInst Obj [("_db_id", VInt 1)]);
      (2, OColl CList [VType "Arm"; VRef 3]); (3, OInst Obj [("_db_id", VNone)]) ].


(** ** [_set_db_ids] (ax/storage/sqa_store/save.py)

    [_set_db_ids(obj_to_sqa)] goes through pairs of a user-facing object
    and the SQLAlchemy object it was encoded to, and gives the object the
    id of its SQLAlchemy object when there is one.  The [db_id] property of
    [Base] and the SQLAlchemy classes are declared outside these files:
    the model keeps, for every object, the value its [db_id] property has
    (no entry for [None]; a read gives what was last written), and of a
    SQLAlchemy object its [id].  The logger is a list of the objects warned
    about. *)

Section SetDbIds.
(** [isinstance(obj, GeneratorRun) and obj._generator_run_type == "STATUS_QUO"] *)
Variable is_sq_gr : loc -> bool.

(** One turn of the loop, on the pair [(obj, sqa_obj)] with
    [sqa_id = sqa_obj.id]. *)
Definition set_db_id (st : gmap loc Z * list loc) (pair : loc * option Z)
  : gmap loc Z * list loc :=
  let '(db_id, log) := st in
  let '(obj, sqa_id) := pair in
  match sqa_id with
  | Some i => (<[obj := i]> db_id, log)
  | None =>
      match db_id !! obj with
      | None => if negb (is_sq_gr obj) then (db_id, log ++ [obj]) else (db_id, log)
      | Some _ => (db_id, log)
      end
  end.

Definition _set_db_ids (st : gmap loc Z * list loc)
    (obj_to_sqa : list (loc * option Z)) : gmap loc Z * list loc :=
  foldl set_db_id st obj_to_sqa.
End SetDbIds.

(** The ids of the SQLAlchemy objects that [obj] is paired with in
    [obj_to_sqa], in order. *)
Definition sqa_ids_of (obj : loc) (obj_to_sqa : list (loc * option Z)) : list Z :=
  omap (fun pair : loc * option Z =>
          if decide (pair.1 = obj) then pair.2 else None) obj_to_sqa.
(** Two chains of eleven objects as in [chain_store], ending in the objects
    40 (source) and 41 (target) of [objs]: these are recursed into with a
    path of 11 items. *)
Definition deep_store (objs : list (loc * obj)) : heap :=
  list_to_map (chain 0 10 (VRef 40) ++ chain 20 10 (VRef 41) ++ objs).

(** Eleven attributes down, [source] holds [[1]] and [target] holds [[]]. *)
Definition deep_lists_store : heap :=
  deep_store [ (40, OColl CList [VInt 1]); (41, OColl CList []) ].

(** Eleven attributes down, [source] holds [{"a": 1}] and [target] holds [{}]. *)
Definition deep_dicts_store : heap :=
  deep_store [ (40, ODict [(KStr "a", VInt 1)]); (41, ODict []) ].

(** Eleven attributes down, [source] holds [[Obj(_db_id=1)]] and [target]
    holds [[Obj(_db_id=None)]]. *)
Definition deep_unsortable_store : heap :=
  deep_store [ (40, OColl CList [VRef 42]); (42, OInst Obj [("_db_id", VInt 1)]);
               (41, OColl CList [VRef 43]); (43, OInst Obj [("_db_id", VNone)]) ].

(** Two [Arm]s of the same name, in a list and in the list the other way
    round, and a target list of two [Arm]s of that name. *)
Definition ties_store : heap :=
  list_to_map
    [ (0, OColl CList [VRef 1; VRef 2]);
      (1, OInst Arm [("name", VStr "a"); ("_db_id", VInt 1)]);
      (2, OInst Arm [("name", VStr "a"); ("_db_id", VInt 2)]);
      (3, OColl CList [VRef 4; VRef 5]);
      (4, OInst Arm [("name", VStr "a"); ("_db_id", VNone)]);
      (5, OInst Arm [("name", VStr "a"); ("_db_id", VNone)]);
      (6, OColl CList [VRef 2; VRef 1]) ].

(** ** Basic facts about the loops *)

Section Loops.
Variable py_lt : heap -> val -> val -> option bool.

Lemma insort_perm h x l l' :
  insort py_lt h x l = Some l' -> l' ≡ₚ x :: l.
Proof.
  revert l'. induction l as [|y l IH]; intros l' H; simpl in H.
  - by inversion H.
  - destruct (py_lt h x y) as [[]|]; [by inversion H| |done].
    destruct (insort py_lt h x l) as [l1|] eqn:E; [|done].
    simpl in H. inversion H; subst. rewrite (IH l1 eq_refl). apply Permutation_swap.
Qed.

Lemma sorted_from_none h l : sorted_from py_lt h None l = None.
Proof. induction l; simpl; auto. Qed.

Lemma sorted_from_perm h l acc l' :
  sorted_from py_lt h (Some acc) l = Some l' -> l' ≡ₚ acc ++ l.
Proof.
  revert acc. induction l as [|x l IH]; intros acc H; simpl in H.
  - inversion H. by rewrite app_nil_r.
  - destruct (insort py_lt h x acc) as [acc'|] eqn:E.
    + simpl in H. fold (sorted_from py_lt h (Some acc') l) in H.
      rewrite (IH _ H), (insort_perm _ _ _ _ E).
      by rewrite <- Permutation_middle.
    + simpl in H. fold (sorted_from py_lt h None l) in H.
      by rewrite sorted_from_none in H.
Qed.

Lemma sorted_perm h l l' : sorted py_lt h l = Some l' -> l' ≡ₚ l.
Proof. intros H. by apply sorted_from_perm in H. Qed.

Lemma sorted_length h l l' : sorted py_lt h l = Some l' -> length l' = length l.
Proof. intros H. by rewrite (sorted_perm _ _ _ H). Qed.

(** The body only calls [rec] with the path extended by one item. *)
Lemma attrs_loop_ext rec1 rec2 todo i size0 h s t p :
  (forall h' s' t' x, rec1 h' s' t' (p ++ [x]) = rec2 h' s' t' (p ++ [x])) ->
  attrs_loop rec1 todo i size0 h s t p = attrs_loop rec2 todo i size0 h s t p.
Proof.
  intros Hrec. revert i h. induction todo as [|todo IH]; intros i h; simpl.
  - done.
  - destruct (instance_dict h s) as [d|]; [|done].
    destruct (negb _); [done|].
    destruct (d !! i) as [[attr v]|]; [|done].
    destruct (is_db_id attr).
    { destruct (setattr h t attr v); [done|]. apply IH. }
    destruct (is_skipped attr); [apply IH|].
    destruct (getattr h t attr) as [|tv]; [done|].
    rewrite Hrec. destruct (rec2 h v tv _) as [[] h']; auto.
Qed.

Lemma seq_loop_ext rec1 rec2 index h xs ys p :
  (forall h' s' t' x, rec1 h' s' t' (p ++ [x]) = rec2 h' s' t' (p ++ [x])) ->
  seq_loop rec1 index h xs ys p = seq_loop rec2 index h xs ys p.
Proof.
  intros Hrec. revert index h. induction xs as [|x xs IH]; intros index h; simpl.
  - done.
  - destruct (ys !! index) as [y|]; [|done].
    rewrite Hrec. destruct (rec2 h x y _) as [[] h']; auto.
Qed.

Lemma dict_loop_ext rec1 rec2 h items t p :
  (forall h' s' t' x, rec1 h' s' t' (p ++ [x]) = rec2 h' s' t' (p ++ [x])) ->
  dict_loop rec1 h items t p = dict_loop rec2 h items t p.
Proof.
  intros Hrec. revert h. induction items as [|[k v] items IH]; intros h; simpl.
  - done.
  - destruct (py_contains h t k) as [|[]]; try done.
    destruct (py_getitem h t k) as [|tv]; [done|].
    rewrite Hrec. destruct (rec2 h v tv _) as [[] h']; auto.
Qed.

Lemma copy_db_ids_body_ext rec1 rec2 h s t p :
  (forall h' s' t' x, rec1 h' s' t' (p ++ [x]) = rec2 h' s' t' (p ++ [x])) ->
  copy_db_ids_body py_lt rec1 h s t p = copy_db_ids_body py_lt rec2 h s t p.
Proof.
  intros Hrec. unfold copy_db_ids_body.
  destruct (10 <? length p); [done|].
  destruct (type_of h s) as [ty_s|]; [|done].
  destruct (type_of h t) as [ty_t|]; [|done].
  destruct (decide (ty_s <> ty_t)); [done|].
  destruct (deref h s) as [[c d|k xs|items]|]; try done.
  - destruct (class_is_base c); [|done]. by apply attrs_loop_ext.
  - destruct (is_list_or_set k); [|done].
    destruct (py_list h t) as [|ys]; [done|].
    unfold copy_seq. destruct (negb _); [done|].
    destruct xs as [|x0 xs]; [done|].
    destruct (is_type x0); [done|].
    destruct (is_base h x0 && negb (is_sortable h x0)); [done|].
    destruct (sorted py_lt h (x0 :: xs)); [|done].
    destruct (sorted py_lt h ys); [|done].
    by apply seq_loop_ext.
  - by apply dict_loop_ext.
Qed.

(** Past the depth guard nothing is looked at. *)
Lemma copy_db_ids_body_deep rec h s t p :
  10 < length p -> copy_db_ids_body py_lt rec h s t p = (Returned, h).
Proof.
  intros H. unfold copy_db_ids_body.
  destruct (10 <? length p) eqn:E; [done|].
  apply Nat.ltb_ge in E. lia.
Qed.

(** The recursion budget: any budget above [11 - length path] gives the
    same result. *)
Lemma copy_db_ids_fuel_stable n m h s t p :
  11 - length p < n -> n <= m ->
  copy_db_ids_fuel py_lt m h s t p = copy_db_ids_fuel py_lt n h s t p.
Proof.
  revert m h s t p. induction n as [|n IH]; intros m h s t p Hn Hm; [lia|].
  destruct m as [|m]; [lia|]. simpl.
  destruct (decide (10 < length p)) as [Hdeep|Hshallow].
  - by rewrite !copy_db_ids_body_deep.
  - apply copy_db_ids_body_ext. intros h' s' t' x.
    apply IH; [|lia]. rewrite length_app. simpl. lia.
Qed.

Lemma copy_db_ids_fuel_enough n h s t p :
  11 - length p < n ->
  copy_db_ids_fuel py_lt n h s t p = copy_db_ids py_lt h s t p.
Proof.
  intros Hn. unfold copy_db_ids.
  destruct (decide (n <= 12)).
  - symmetry. by apply copy_db_ids_fuel_stable.
  - apply copy_db_ids_fuel_stable; lia.
Qed.

(** One unfolding of the function. *)
Lemma copy_db_ids_unfold h s t p :
  copy_db_ids py_lt h s t p
  = copy_db_ids_body py_lt (copy_db_ids py_lt) h s t p.
Proof.
  unfold copy_db_ids at 1.
  change (copy_db_ids_fuel py_lt 12 h s t p)
    with (copy_db_ids_body py_lt (copy_db_ids_fuel py_lt 11) h s t p).
  destruct (decide (10 < length p)) as [Hdeep|Hshallow].
  - by rewrite !copy_db_ids_body_deep.
  - apply copy_db_ids_body_ext. intros h' s' t' x.
    apply copy_db_ids_fuel_enough. rewrite length_app. simpl. lia.
Qed.

End Loops.

(** ** Reasoning principles *)

Lemma deref_type_of h s o :
  deref h s = Some o ->
  type_of h s = Some (match o with
                      | OInst c _ => TClass c
                      | OColl k _ => TColl k
                      | ODict _ => TDict
                      end).
Proof.
  destruct s as [| | | |l]; try done. simpl. intros ->. by destruct o.
Qed.

Section Invariant.
Variable py_lt : heap -> val -> val -> option bool.
Variable rec : rec_call.
Variable Inv : heap -> Prop.
Variable Q : outcome -> Prop.
Variables (h0 : heap) (target : val) (path : list key).

(** An identifier write keeps the invariant. *)
Hypothesis Hset : forall h attr v h',
  Inv h -> is_db_id attr = true -> setattr h target attr v = inr h' -> Inv h'.
(** So does a recursive call on a child of [target]. *)
Hypothesis Hrec : forall h s' t' x,
  Inv h -> child_at h0 h target t' ->
  Inv (snd (rec h s' t' (path ++ [x]))) /\ Q (fst (rec h s' t' (path ++ [x]))).
(** Everything the body itself answers is acceptable. *)
Hypothesis HQ : forall o, o <> OutOfFuel -> Q o.

Lemma good_fail f h : Inv h -> good Inv Q (fail f h).
Proof. intros H. destruct f; split; simpl; auto; by apply HQ. Qed.

Lemma attrs_loop_inv todo i size0 h s :
  is_base h0 target = true ->
  Inv h -> good Inv Q (attrs_loop rec todo i size0 h s target path).
Proof.
  intros Hbase. revert i h. induction todo as [|todo IH]; intros i h HI; simpl.
  - destruct (instance_dict h s); [|by split; auto].
    destruct (negb _); split; auto.
  - destruct (instance_dict h s) as [d|]; [|by split; auto].
    destruct (negb _); [by split; auto|].
    destruct (d !! i) as [[attr v]|]; [|by split; auto].
    destruct (is_db_id attr) eqn:Eid.
    { destruct (setattr h target attr v) as [f|h'] eqn:E.
      - by apply good_fail.
      - apply IH. eapply Hset; eauto. }
    destruct (is_skipped attr) eqn:Esk; [by apply IH|].
    destruct (getattr h target attr) as [f|tv] eqn:E; [by apply good_fail|].
    destruct (Hrec h v tv (KStr attr) HI) as [HI' HQ'].
    { left. split; [done|]. eauto. }
    destruct (rec h v tv _) as [[] h']; try (split; assumption).
    by apply IH.
Qed.

Lemma seq_loop_inv index h xs ys k ys0 :
  type_of h0 target = Some (TColl k) -> is_list_or_set k = true ->
  py_list h0 target = inr ys0 -> ys ⊆ ys0 ->
  Inv h -> good Inv Q (seq_loop rec index h xs ys path).
Proof.
  intros Hty Hk Hys0 Hsub. revert index h.
  induction xs as [|x xs IH]; intros index h HI; simpl.
  - split; auto.
  - destruct (ys !! index) as [y|] eqn:Ey; [|by split; auto].
    destruct (Hrec h x y (str_of_index index) HI) as [HI' HQ'].
    { right; left. exists k, ys0. do 3 (split; [done|]).
      apply Hsub. by eapply list_elem_of_lookup_2. }
    destruct (rec h x y _) as [[] h']; try (split; assumption).
    by apply IH.
Qed.

Lemma dict_loop_inv h items :
  Inv h -> good Inv Q (dict_loop rec h items target path).
Proof.
  revert h. induction items as [|[k v] items IH]; intros h HI; simpl.
  - split; auto.
  - destruct (py_contains h target k) as [f|[]]; [by apply good_fail| |by split; auto].
    destruct (py_getitem h target k) as [f|tv] eqn:E; [by apply good_fail|].
    destruct (Hrec h v tv k HI) as [HI' HQ'].
    { right; right. eauto. }
    destruct (rec h v tv _) as [[] h']; try (split; assumption).
    by apply IH.
Qed.

Lemma copy_db_ids_body_inv s :
  Inv h0 -> good Inv Q (copy_db_ids_body py_lt rec h0 s target path).
Proof.
  intros HI. unfold copy_db_ids_body.
  destruct (10 <? length path); [by split; auto|].
  destruct (type_of h0 s) as [ty_s|] eqn:Es; [|by split; auto].
  destruct (type_of h0 target) as [ty_t|] eqn:Et; [|by split; auto].
  destruct (decide (ty_s <> ty_t)) as [|Heq]; [by split; auto|].
  apply dec_stable in Heq. subst ty_t.
  destruct (deref h0 s) as [[c d|k xs|items]|] eqn:Ed; try (by split; auto);
    apply deref_type_of in Ed; rewrite Es in Ed; injection Ed as ->.
  - destruct (class_is_base c) eqn:Ec; [|by split; auto].
    apply attrs_loop_inv; [|done]. unfold is_base. by rewrite Et.
  - destruct (is_list_or_set k) eqn:Ek; [|by split; auto].
    destruct (py_list h0 target) as [f|ys] eqn:Ey; [by apply good_fail|].
    unfold copy_seq. destruct (negb _); [by split; auto|].
    destruct xs as [|x0 xs]; [by split; auto|].
    destruct (is_type x0); [by split; auto|].
    destruct (is_base h0 x0 && negb (is_sortable h0 x0)).
    { destruct (type_of h0 x0); by split; auto. }
    destruct (sorted py_lt h0 (x0 :: xs)); [|by split; auto].
    destruct (sorted py_lt h0 ys) as [sy|] eqn:Esy; [|by split; auto].
    eapply seq_loop_inv; eauto.
    intros y Hy. by rewrite <- (sorted_perm _ _ _ _ Esy).
  - by apply dict_loop_inv.
Qed.
End Invariant.

Section Induction.
Variable py_lt : heap -> val -> val -> option bool.

(** Induction on the calls of [copy_db_ids]: the recursive calls are made
    with a longer path and only below the depth guard. *)
Lemma copy_db_ids_induction (P : heap -> val -> val -> list key -> Prop) :
  (forall h s t p,
      (length p <= 10 -> forall h' s' t' x, P h' s' t' (p ++ [x])) ->
      P h s t p) ->
  forall h s t p, P h s t p.
Proof.
  intros Hstep h s t p.
  remember (11 - length p) as k eqn:Hk.
  revert h s t p Hk. induction k as [k IH] using lt_wf_ind.
  intros h s t p Hk. apply Hstep. intros Hle h' s' t' x.
  apply (IH (11 - length (p ++ [x]))); [|done].
  rewrite length_app. simpl. lia.
Qed.

(** The budget of the model is never used up. *)
Lemma copy_db_ids_total h s t p :
  fst (copy_db_ids py_lt h s t p) <> OutOfFuel.
Proof.
  revert h s t p. apply copy_db_ids_induction. intros h s t p IH.
  rewrite copy_db_ids_unfold.
  destruct (decide (10 < length p)) as [Hd|Hd].
  { by rewrite copy_db_ids_body_deep. }
  apply (copy_db_ids_body_inv py_lt (copy_db_ids py_lt) (fun _ => True)
           (fun o => o <> OutOfFuel) h t p); auto.
  intros. split; [done|]. apply IH. lia.
Qed.
End Induction.

(** ** The depth guard *)

(** C7: with a path of more than 10 items the call returns normally and
    leaves the store as it is, whatever [source] and [target] are: no
    identifier is copied and no mismatch of types, lengths or keys is
    reported, since the guard comes before every check. *)
Theorem copy_db_ids_depth_guard py_lt (h : heap) (source target : val)
    (path : list key) :
  10 < length path ->
  copy_db_ids py_lt h source target path = (Returned, h).
Proof.
  intros Hdeep. rewrite copy_db_ids_unfold. by apply copy_db_ids_body_deep.
Qed.

Lemma copy_db_ids_depth_guard_witness :
  10 < length deep_path
  /\ copy_db_ids lt_by_name partial_store (VRef 1) (VInt 3) deep_path
     = (Returned, partial_store).
Proof.
  split; [simpl; lia|]. apply copy_db_ids_depth_guard. simpl; lia.
Defined.

(** ** Collections other than lists and sets *)

(** C10: on two collections of a type that is neither [list] nor [set] (a
    tuple, a frozenset) the body falls through to the last branch: it
    returns normally, leaves the store as it is and makes no recursive
    call, whatever the items and the lengths of the two collections. *)
Theorem copy_db_ids_other_collection py_lt (h : heap) (ls lt : loc)
    (k : coll_kind) (xs ys : list val) (path : list key) :
  h !! ls = Some (OColl k xs) ->
  h !! lt = Some (OColl k ys) ->
  is_list_or_set k = false ->
  (forall rec, copy_db_ids_body py_lt rec h (VRef ls) (VRef lt) path = (Returned, h))
  /\ copy_db_ids py_lt h (VRef ls) (VRef lt) path = (Returned, h).
Proof.
  intros Hs Ht Hk.
  assert (Hbody : forall rec,
    copy_db_ids_body py_lt rec h (VRef ls) (VRef lt) path = (Returned, h)).
  { intros rec. unfold copy_db_ids_body. simpl. rewrite Hs, Ht, Hk.
    destruct (10 <? length path); [done|].
    by destruct (decide (TColl k <> TColl k)). }
  split; [done|]. by rewrite copy_db_ids_unfold.
Qed.

Lemma copy_db_ids_other_collection_witness :
  copy_db_ids lt_by_name tuple_store (VRef 0) (VRef 2) [] = (Returned, tuple_store).
Proof.
  apply (copy_db_ids_other_collection lt_by_name tuple_store 0 2 CTuple
           [VRef 1] [VRef 3; VInt 5] []); reflexivity.
Defined.

(** ** Errors are not atomic *)

(** C9: there is a call that raises [SQADecodeError] and leaves [target]
    changed: the identifier of the root is copied before the lists of
    different lengths under [arms] are met. *)
Theorem copy_db_ids_not_atomic py_lt :
  exists (h h' : heap) (source target : val) (path : list key) (why : mismatch),
    copy_db_ids py_lt h source target [] = (Raised (SQADecodeError path why), h')
    /\ getattr h target "_db_id" = inr VNone
    /\ getattr h source "_db_id" = inr (VInt 7)
    /\ getattr h' target "_db_id" = inr (VInt 7).
Proof.
  exists partial_store,
    (<[2 := OInst Obj [("_db_id", VInt 7); ("arms", VRef 3)]]> partial_store),
    (VRef 0), (VRef 2), [KStr "arms"], DifferentLengths.
  repeat split; vm_compute; reflexivity.
Qed.

(** ** The frame of a call *)

Lemma dict_get_set {K V} `{EqDecision K} (d : list (K * V)) k v k' :
  dict_get (dict_set d k v) k' = if decide (k' = k) then Some v else dict_get d k'.
Proof.
  induction d as [|[k0 v0] d IH]; simpl.
  - done.
  - destruct (decide (k = k0)) as [->|Hne]; simpl.
    + destruct (decide (k' = k0)); done.
    + rewrite IH. destruct (decide (k' = k0)) as [->|]; [|done].
      by destruct (decide (k0 = k)); [subst|].
Qed.

Lemma same_fields_refl d : same_fields d d.
Proof. by intros a Ha. Qed.

Lemma same_fields_trans d1 d2 d3 :
  same_fields d1 d2 -> same_fields d2 d3 -> same_fields d1 d3.
Proof. intros H1 H2 a Ha. by rewrite H2, H1. Qed.

Lemma same_fields_set d a v : is_db_id a = true -> same_fields d (dict_set d a v).
Proof.
  intros Ha b Hb. rewrite dict_get_set.
  destruct (decide (b = a)) as [->|]; [congruence|done].
Qed.

Lemma only_ids_changed_refl h : only_ids_changed h h.
Proof.
  intros l. destruct (h !! l) as [[c d| |]|]; try done.
  exists d. split; [done|apply same_fields_refl].
Qed.

Lemma only_ids_changed_trans h1 h2 h3 :
  only_ids_changed h1 h2 -> only_ids_changed h2 h3 -> only_ids_changed h1 h3.
Proof.
  intros H12 H23 l. specialize (H12 l). specialize (H23 l).
  destruct (h1 !! l) as [[c d| |]|].
  - destruct H12 as (d2 & E2 & F2). rewrite E2 in H23.
    destruct H23 as (d3 & E3 & F3). exists d3. split; [done|].
    by eapply same_fields_trans.
  - by rewrite H12 in H23.
  - by rewrite H12 in H23.
  - by rewrite H12 in H23.
Qed.

Lemma setattr_inv h t a v h' :
  setattr h t a v = inr h' ->
  exists l c d, t = VRef l /\ h !! l = Some (OInst c d)
                /\ h' = <[l := OInst c (dict_set d a v)]> h.
Proof.
  unfold setattr. destruct t as [| | | |l]; try done.
  destruct (h !! l) as [[c d| |]|] eqn:E; try done.
  intros [= <-]. by exists l, c, d.
Qed.

Lemma only_ids_changed_setattr h t a v h' :
  is_db_id a = true -> setattr h t a v = inr h' -> only_ids_changed h h'.
Proof.
  intros Ha (l & c & d & -> & E & ->)%setattr_inv l'.
  destruct (decide (l' = l)) as [->|Hne].
  - rewrite E, lookup_insert_eq. eexists. split; [done|]. by apply same_fields_set.
  - rewrite lookup_insert_ne by done.
    destruct (h !! l') as [[c' d'| |]|]; try done.
    exists d'. split; [done|apply same_fields_refl].
Qed.

(** The inverse reading of [only_ids_changed]. *)
Lemma only_ids_changed_back h h' l :
  only_ids_changed h h' ->
  match h' !! l with
  | Some (OInst c d') => exists d, h !! l = Some (OInst c d) /\ same_fields d d'
  | o => h !! l = o
  end.
Proof.
  intros H. specialize (H l).
  destruct (h !! l) as [[c d| |]|].
  - destruct H as (d' & -> & F). by exists d.
  - by rewrite H.
  - by rewrite H.
  - by rewrite H.
Qed.

Section Frame.
Variable py_lt : heap -> val -> val -> option bool.

(** Whatever the outcome, a call changes identifier fields of instances and
    nothing else. *)
Lemma copy_db_ids_only_ids h s t p :
  only_ids_changed h (snd (copy_db_ids py_lt h s t p)).
Proof.
  revert h s t p. apply copy_db_ids_induction. intros h s t p IH.
  rewrite copy_db_ids_unfold.
  destruct (decide (10 < length p)) as [Hd|Hd].
  { rewrite copy_db_ids_body_deep by done. apply only_ids_changed_refl. }
  apply (copy_db_ids_body_inv py_lt (copy_db_ids py_lt)
           (fun hc => only_ids_changed h hc) (fun _ => True) h t p); auto.
  - intros hc a v h' HI Ha Hset. eapply only_ids_changed_trans; [done|].
    by eapply only_ids_changed_setattr.
  - intros hc s' t' x HI _. split; [|done].
    eapply only_ids_changed_trans; [done|]. apply IH. lia.
  - apply only_ids_changed_refl.
Qed.

Lemma getattr_back h h' t a t' :
  only_ids_changed h h' -> is_db_id a = false ->
  getattr h' t a = inr t' -> getattr h t a = inr t'.
Proof.
  intros H Ha G. unfold getattr in *.
  destruct t as [| | | |l]; try done.
  pose proof (only_ids_changed_back _ _ l H) as B.
  destruct (h' !! l) as [[c d'| |]|]; try done.
  destruct B as (d & -> & F). by rewrite <- (F a Ha).
Qed.

Lemma py_getitem_back h h' t k t' :
  only_ids_changed h h' ->
  py_getitem h' t k = inr t' -> py_getitem h t k = inr t'.
Proof.
  intros H G. unfold py_getitem in *.
  destruct t as [| | | |l]; try done.
  pose proof (only_ids_changed_back _ _ l H) as B.
  destruct (h' !! l) as [[c d'| |]|]; try done; by rewrite B.
Qed.

Lemma type_of_back h h' t :
  only_ids_changed h h' -> type_of h' t = type_of h t.
Proof.
  intros H. destruct t as [| | | |l]; try done. simpl.
  pose proof (only_ids_changed_back _ _ l H) as B.
  destruct (h' !! l) as [[c d'| |]|]; try (by rewrite B).
  by destruct B as (d & -> & _).
Qed.

Lemma py_list_back h h' t ys :
  only_ids_changed h h' -> py_list h' t = inr ys -> py_list h t = inr ys.
Proof.
  intros H G. unfold py_list in *.
  destruct t as [| | | |l]; try done.
  pose proof (only_ids_changed_back _ _ l H) as B.
  destruct (h' !! l) as [[c d'| |]|]; try done; by rewrite B.
Qed.

Lemma child_at_back h h' t t' :
  only_ids_changed h h' -> child_at h h' t t' -> child h t t'.
Proof.
  intros H [(Hb & a & Ha & Hs & G)|[(k & ys & Hty & Hk & G & Hin)|(k & G)]].
  - left. split; [done|]. exists a. do 2 (split; [done|]).
    by eapply getattr_back.
  - right; left. by exists k, ys.
  - right; right. exists k. by eapply py_getitem_back.
Qed.

Lemma child_back h h' t t' :
  only_ids_changed h h' -> child h' t t' -> child h t t'.
Proof.
  intros H [(Hb & a & Ha & Hs & G)|[(k & ys & Hty & Hk & G & Hin)|(k & G)]].
  - left. split.
    { unfold is_base in *. by rewrite <- (type_of_back h h'). }
    exists a. do 2 (split; [done|]). by eapply getattr_back.
  - right; left. exists k, ys. rewrite <- (type_of_back h h') by done.
    do 2 (split; [done|]). split; [|done]. by eapply py_list_back.
  - right; right. exists k. by eapply py_getitem_back.
Qed.

Lemma visits_back h h' t l :
  only_ids_changed h h' -> visits h' t l -> visits h t l.
Proof.
  intros H V. induction V as [l|t t' l C V IH].
  - constructor.
  - eapply visits_child; [|done]. by eapply child_back.
Qed.

(** An object the traversal of [target] cannot get to is left as it is. *)
Lemma copy_db_ids_frame h s t p l :
  ~ visits h t l -> snd (copy_db_ids py_lt h s t p) !! l = h !! l.
Proof.
  revert h s t p l. apply (copy_db_ids_induction
    (fun h s t p => forall l, ~ visits h t l ->
       snd (copy_db_ids py_lt h s t p) !! l = h !! l)).
  intros h s t p IH l Hl. rewrite copy_db_ids_unfold.
  destruct (decide (10 < length p)) as [Hd|Hd].
  { by rewrite copy_db_ids_body_deep. }
  apply (copy_db_ids_body_inv py_lt (copy_db_ids py_lt)
           (fun hc => only_ids_changed h hc /\ hc !! l = h !! l)
           (fun _ => True) h t p); auto.
  - intros hc a v h' [HI Hsame] Ha Hset. split.
    + eapply only_ids_changed_trans; [done|]. by eapply only_ids_changed_setattr.
    + apply setattr_inv in Hset as (lt & c & d & -> & E & ->).
      rewrite lookup_insert_ne; [done|]. intros ->. apply Hl. constructor.
  - intros hc s' t' x [HI Hsame] Hch. split; [|done]. split.
    + eapply only_ids_changed_trans; [done|]. apply copy_db_ids_only_ids.
    + rewrite IH; [done|lia|]. intros V. apply Hl.
      eapply visits_child; [by eapply child_at_back|by eapply visits_back].
  - split; [apply only_ids_changed_refl|done].
Qed.
End Frame.

(** ** The source is left alone *)

(** C8, as stated, fails when the two graphs share objects: here [target]
    is the object under [source._experiment], and the call, which returns
    normally, changes its [_db_id] from [None] to [1]. *)
Lemma copy_db_ids_mutates_aliased_source :
  copy_db_ids lt_by_name alias_store (VRef 0) (VRef 1) []
  = (Returned,
     <[1 := OInst Obj [("_db_id", VInt 1); ("_experiment", VNone)]]> alias_store)
  /\ reachable alias_store (VRef 0) 1
  /\ getattr alias_store (VRef 1) "_db_id" = inr VNone
  /\ getattr (snd (copy_db_ids lt_by_name alias_store (VRef 0) (VRef 1) []))
       (VRef 1) "_db_id" = inr (VInt 1).
Proof.
  split; [by vm_compute|]. split; [|split; by vm_compute].
  eapply (reachable_step _ 0 _ (VRef 1)); [by vm_compute| |constructor].
  exists "_experiment". apply list_elem_of_In. simpl. auto.
Qed.

(** C8 (amended): whether the call returns or raises, it changes nothing
    but identifier fields of instances, and only of objects the traversal
    of [target] can get to (through the attributes it recurses into, list
    and set items and dictionary values); so when no object reachable from
    [source] is one of those, every object reachable from [source] is the
    same after the call. *)
Theorem copy_db_ids_source_unchanged py_lt (h : heap) (source target : val)
    (path : list key) :
  only_ids_changed h (snd (copy_db_ids py_lt h source target path))
  /\ (forall l, ~ visits h target l ->
        snd (copy_db_ids py_lt h source target path) !! l = h !! l)
  /\ ((forall l, reachable h source l -> ~ visits h target l) ->
      forall l, reachable h source l ->
        snd (copy_db_ids py_lt h source target path) !! l = h !! l).
Proof.
  split; [|split].
  - apply copy_db_ids_only_ids.
  - intros l Hl. by apply copy_db_ids_frame.
  - intros Hsep l Hl. apply copy_db_ids_frame. by apply Hsep.
Qed.

Lemma visits_primitive h v l :
  (forall l', v <> VRef l') -> ~ visits h v l.
Proof.
  intros Hv V. inversion V as [|? t' ? C V']; subst; [by eapply Hv|].
  destruct C as [(Hb & _)|[(k & ys & Hty & _)|(k & G)]].
  - unfold is_base in Hb. by destruct v; try done; eapply Hv.
  - by destruct v; try done; eapply Hv.
  - by destruct v; try done; eapply Hv.
Qed.

Lemma reachable_primitive h v l :
  (forall l', v <> VRef l') -> ~ reachable h v l.
Proof. intros Hv R. destruct R; by eapply Hv. Qed.

Lemma pair_store_separate l :
  reachable pair_store (VRef 0) l -> ~ visits pair_store (VRef 1) l.
Proof.
  intros R V.
  assert (l = 0) as ->.
  { inversion R as [|? o v ? Ho Hv R']; subst; [done|].
    vm_compute in Ho. injection Ho as <-. destruct Hv as [a Hv].
    apply list_elem_of_In in Hv. simpl in Hv.
    destruct Hv as [[= <- <-]|[[= <- <-]|[]]];
      by apply reachable_primitive in R'. }
  inversion V as [|? t' ? C V']; subst.
  destruct C as [(_ & a & Ha & _ & G)|[(k & ys & Hty & _)|(k & G)]];
    [|vm_compute in Hty; discriminate Hty|vm_compute in G; discriminate G].
  unfold getattr in G. change (pair_store !! 1) with
      (Some (OInst Obj [("_db_id", VNone); ("name", VStr "x")])) in G.
  simpl in G. destruct (decide (a = "_db_id")) as [->|]; [done|].
  destruct (decide (a = "name")); [|done].
  injection G as <-. by apply visits_primitive in V'.
Qed.

Lemma copy_db_ids_source_unchanged_witness :
  snd (copy_db_ids lt_by_name pair_store (VRef 0) (VRef 1) []) !! 0
  = pair_store !! 0
  /\ only_ids_changed pair_store
       (snd (copy_db_ids lt_by_name pair_store (VRef 0) (VRef 1) [])).
Proof.
  pose proof (copy_db_ids_source_unchanged lt_by_name pair_store
                (VRef 0) (VRef 1) []) as (Hids & _ & Hsrc).
  split; [|exact Hids]. apply (Hsrc pair_store_separate). constructor.
Defined.

(** ** Failures propagate to the root *)

Section Propagation.
Variable py_lt : heap -> val -> val -> option bool.
Variable rec : rec_call.

Lemma attrs_loop_split a b i size0 h s t p :
  a + i <= size0 ->
  attrs_loop rec (a + b) i size0 h s t p
  = match attrs_loop rec a i size0 h s t p with
    | (Returned, h1) => attrs_loop rec b (a + i) size0 h1 s t p
    | r => r
    end.
Proof.
  revert i h. induction a as [|a IH]; intros i h Hle.
  - change (0 + b) with b. change (0 + i) with i.
    destruct b; simpl; destruct (instance_dict h s) as [d|] eqn:Ed; try done;
      destruct (negb (length d =? size0)) eqn:En; try done;
      simpl; by rewrite ?Ed, ?En.
  - simpl. destruct (instance_dict h s) as [d|]; [|done].
    destruct (length d =? size0) eqn:El; [|done]. simpl.
    apply Nat.eqb_eq in El.
    destruct (lookup_lt_is_Some_2 d i) as [[attr v] Ei]; [lia|]. rewrite Ei.
    replace (S (a + i)) with (a + S i) by lia.
    destruct (is_db_id attr).
    { destruct (setattr h t attr v) as [f|h']; [by destruct f|]. apply IH. lia. }
    destruct (is_skipped attr); [apply IH; lia|].
    destruct (getattr h t attr) as [f|tv]; [by destruct f|].
    destruct (rec h v tv _) as [[] h']; try done. apply IH. lia.
Qed.

Lemma attrs_loop_returned todo i size0 h s t p h1 :
  attrs_loop rec todo i size0 h s t p = (Returned, h1) ->
  exists d1, instance_dict h1 s = Some d1 /\ length d1 = size0.
Proof.
  revert i h. induction todo as [|todo IH]; intros i h; simpl.
  - destruct (instance_dict h s) as [d|] eqn:Ed; [|done].
    destruct (length d =? size0) eqn:El; [|done]. simpl.
    intros [= <-]. exists d. split; [done|]. by apply Nat.eqb_eq.
  - destruct (instance_dict h s) as [d|] eqn:Ed; [|done].
    destruct (length d =? size0) eqn:El; [|done]. simpl.
    destruct (d !! i) as [[attr v]|].
    + destruct (is_db_id attr).
      { destruct (setattr h t attr v) as [f|h']; [by destruct f|]. apply IH. }
      destruct (is_skipped attr); [apply IH|].
      destruct (getattr h t attr) as [f|tv]; [by destruct f|].
      destruct (rec h v tv _) as [[] h']; try done. apply IH.
    + intros [= <-]. exists d. split; [done|]. by apply Nat.eqb_eq.
Qed.

Lemma seq_loop_split xs1 xs2 index h ys p :
  seq_loop rec index h (xs1 ++ xs2) ys p
  = match seq_loop rec index h xs1 ys p with
    | (Returned, h1) => seq_loop rec (length xs1 + index) h1 xs2 ys p
    | r => r
    end.
Proof.
  revert index h. induction xs1 as [|x xs1 IH]; intros index h; simpl.
  - done.
  - destruct (ys !! index) as [y|]; [|done].
    destruct (rec h x y _) as [[] h']; try done.
    rewrite IH. by replace (length xs1 + S index) with (S (length xs1 + index)) by lia.
Qed.

Lemma dict_loop_split pre post h t p :
  dict_loop rec h (pre ++ post) t p
  = match dict_loop rec h pre t p with
    | (Returned, h1) => dict_loop rec h1 post t p
    | r => r
    end.
Proof.
  revert h. induction pre as [|[k v] pre IH]; intros h; simpl.
  - done.
  - destruct (py_contains h t k) as [f|[]]; [by destruct f| |done].
    destruct (py_getitem h t k) as [f|tv]; [by destruct f|].
    destruct (rec h v tv _) as [[] h']; try done.
Qed.

(** A failure of a recursive call is the failure of the call that makes it. *)
Lemma calls_propagate c c' r :
  calls py_lt rec c c' ->
  rec (c_heap c') (c_source c') (c_target c') (c_path c') = r ->
  fst r <> Returned ->
  copy_db_ids_body py_lt rec (c_heap c) (c_source c) (c_target c) (c_path c) = r.
Proof.
  intros Hc Hr Hfail. destruct Hc; simpl in *.
  - (* an attribute *)
    unfold copy_db_ids_body.
    destruct (10 <? length p) eqn:E; [apply Nat.ltb_lt in E; lia|].
    rewrite (deref_type_of _ _ _ H1), H0.
    destruct (decide (TClass c <> TClass c)); [done|].
    rewrite H1, H2.
    destruct (attrs_loop_returned _ _ _ _ _ _ _ _ H3) as (d1' & Ed1 & Hlen).
    rewrite H4 in Ed1. injection Ed1 as <-.
    assert (i < length d) as Hi.
    { rewrite <- Hlen. by eapply lookup_lt_Some. }
    replace (length d) with (i + (length d - i)) at 1 by lia.
    rewrite attrs_loop_split by lia. rewrite H3.
    destruct (length d - i) as [|todo] eqn:Etodo; [lia|]. simpl.
    rewrite H4, Hlen, Nat.eqb_refl. simpl.
    rewrite Nat.add_0_r, H5, H6, H7, H8, Hr.
    by destruct r as [[] h'].
  - (* an item *)
    unfold copy_db_ids_body.
    destruct (10 <? length p) eqn:E; [apply Nat.ltb_lt in E; lia|].
    rewrite (deref_type_of _ _ _ H1), H0.
    destruct (decide (TColl k <> TColl k)); [done|].
    rewrite H1, H2, H3. unfold copy_seq.
    destruct (negb (length (x0 :: xs) =? length ys)) eqn:El.
    { apply negb_true_iff, Nat.eqb_neq in El. simpl in El. lia. }
    rewrite H5, H6, H7, H8.
    rewrite <- (take_drop_middle sx i x) by done.
    rewrite seq_loop_split, H9. simpl.
    rewrite length_take, Nat.add_0_r.
    apply lookup_lt_Some in H10 as Hlt.
    replace (i `min` length sx) with i by lia.
    rewrite H11, Hr. by destruct r as [[] h'].
  - (* a dict value *)
    unfold copy_db_ids_body.
    destruct (10 <? length p) eqn:E; [apply Nat.ltb_lt in E; lia|].
    rewrite (deref_type_of _ _ _ H1), H0.
    destruct (decide (TDict <> TDict)); [done|].
    rewrite H1, dict_loop_split, H2. simpl. rewrite H3, H4, Hr.
    by destruct r as [[] h'].
Qed.
End Propagation.

Lemma recursed_into_propagate py_lt root c :
  recursed_into py_lt root c ->
  fst (run py_lt c) <> Returned ->
  run py_lt root = run py_lt c.
Proof.
  intros H. induction H as [c|c1 c2 c3 H12 H23 IH]; [done|].
  intros Hfail. rewrite <- (IH Hfail). unfold run at 1.
  rewrite copy_db_ids_unfold.
  apply (calls_propagate _ _ _ _ _ H12); [done|].
  fold (run py_lt c2). by rewrite (IH Hfail).
Qed.

(** ** Mismatching types *)

Lemma run_type_mismatch py_lt h s t p ty_s ty_t :
  length p <= 10 ->
  type_of h s = Some ty_s -> type_of h t = Some ty_t -> ty_s <> ty_t ->
  copy_db_ids py_lt h s t p
  = (Raised (SQADecodeError p (DifferentTypes ty_s ty_t)), h).
Proof.
  intros Hp Hs Ht Hne. rewrite copy_db_ids_unfold. unfold copy_db_ids_body.
  destruct (10 <? length p) eqn:E; [apply Nat.ltb_lt in E; lia|].
  rewrite Hs, Ht. by destruct (decide (ty_s <> ty_t)).
Qed.

Ltac chain_step :=
  eapply rtc_l;
  [ eapply calls_attr with (i := 0); [simpl; lia | reflexivity ..] | ].

(** C2, as stated, fails below the depth guard: the traversal of the two
    chains recurses into the position eleven attributes down, where
    [source] holds an [int] and [target] a [str], and the call returns
    normally. *)
Lemma copy_db_ids_deep_type_mismatch_returns :
  copy_db_ids lt_by_name chain_store (VRef 0) (VRef 20) []
  = (Returned, chain_store)
  /\ recursed_into lt_by_name
       (Call chain_store (VRef 0) (VRef 20) [])
       (Call chain_store (VInt 1) (VStr "a") (replicate 11 (KStr "child")))
  /\ type_of chain_store (VInt 1) = Some TInt
  /\ type_of chain_store (VStr "a") = Some TStr.
Proof.
  split; [by vm_compute|]. split; [|done].
  unfold recursed_into. do 11 chain_step. apply rtc_refl.
Qed.

(** C2 (amended): when [source] and [target] have different types at the
    root, or at a position the traversal recurses into, and the path there
    has at most 10 items, the call raises the [SQADecodeError] that names
    the two types; the store is as the traversal left it at that point. *)
Theorem copy_db_ids_type_mismatch py_lt (root c : call) (ty_s ty_t : pytype) :
  reached py_lt root c ->
  type_of (c_heap c) (c_source c) = Some ty_s ->
  type_of (c_heap c) (c_target c) = Some ty_t ->
  ty_s <> ty_t ->
  run py_lt root
  = (Raised (SQADecodeError (c_path c) (DifferentTypes ty_s ty_t)), c_heap c).
Proof.
  intros [Hrec Hlen] Hs Ht Hne.
  assert (run py_lt c
          = (Raised (SQADecodeError (c_path c) (DifferentTypes ty_s ty_t)), c_heap c))
    as Hrun by (by apply run_type_mismatch).
  rewrite <- Hrun. apply recursed_into_propagate; [done|]. by rewrite Hrun.
Qed.

Lemma copy_db_ids_type_mismatch_witness :
  run lt_by_name (Call mismatch_store (VRef 0) (VRef 1) [])
  = (Raised (SQADecodeError [KStr "name"] (DifferentTypes TStr TInt)),
     <[1 := OInst Obj [("_db_id", VInt 7); ("name", VInt 3)]]> mismatch_store).
Proof.
  refine (copy_db_ids_type_mismatch lt_by_name
           (Call mismatch_store (VRef 0) (VRef 1) [])
           (Call (<[1 := OInst Obj [("_db_id", VInt 7); ("name", VInt 3)]]>
                    mismatch_store)
                 (VStr "x") (VInt 3) [KStr "name"])
           TStr TInt _ eq_refl eq_refl _).
  - split; [|simpl; lia]. eapply rtc_l; [|apply rtc_refl].
    eapply calls_attr with (i := 1) (attr := "name"); [simpl; lia|by vm_compute..].
  - discriminate.
Defined.

(** ** Collections of different lengths *)

(** C3, as stated, fails below the depth guard and on other collections:
    the traversal recurses into the two lists of different lengths eleven
    attributes down and the call returns normally; and so does a call on
    two tuples of different lengths. *)
Lemma copy_db_ids_length_mismatch_returns :
  (copy_db_ids lt_by_name deep_lists_store (VRef 0) (VRef 20) []
   = (Returned, deep_lists_store)
   /\ recursed_into lt_by_name
        (Call deep_lists_store (VRef 0) (VRef 20) [])
        (Call deep_lists_store (VRef 40) (VRef 41) (replicate 11 (KStr "child")))
   /\ deep_lists_store !! 40 = Some (OColl CList [VInt 1])
   /\ deep_lists_store !! 41 = Some (OColl CList []))
  /\ (copy_db_ids lt_by_name tuple_store (VRef 0) (VRef 2) []
      = (Returned, tuple_store)
      /\ tuple_store !! 0 = Some (OColl CTuple [VRef 1])
      /\ tuple_store !! 2 = Some (OColl CTuple [VRef 3; VInt 5])).
Proof.
  split; [split; [by vm_compute|split; [|done]]|by vm_compute].
  unfold recursed_into. do 11 chain_step. apply rtc_refl.
Qed.

(** C3 (amended): when the traversal recurses into a pair of lists or sets
    whose lengths differ, with a path of at most 10 items there, the call
    raises [SQADecodeError]: for the lengths when the two are of the same
    type, for the types when one is a list and the other a set. *)
Theorem copy_db_ids_length_mismatch py_lt (root : call) (h : heap)
    (ls lt : loc) (p : list key) (k1 k2 : coll_kind) (xs ys : list val) :
  recursed_into py_lt root (Call h (VRef ls) (VRef lt) p) ->
  length p <= 10 ->
  h !! ls = Some (OColl k1 xs) ->
  h !! lt = Some (OColl k2 ys) ->
  is_list_or_set k1 = true ->
  is_list_or_set k2 = true ->
  length xs <> length ys ->
  run py_lt root
  = (Raised (SQADecodeError p
       (if decide (k1 = k2) then DifferentLengths
        else DifferentTypes (TColl k1) (TColl k2))), h).
Proof.
  intros Hrec Hlen Hs Ht Hk1 Hk2 Hne.
  set (c := Call h (VRef ls) (VRef lt) p) in *.
  assert (run py_lt c
          = (Raised (SQADecodeError p
               (if decide (k1 = k2) then DifferentLengths
                else DifferentTypes (TColl k1) (TColl k2))), h)) as Hrun.
  { unfold run, c. simpl. destruct (decide (k1 = k2)) as [->|Hk].
    - rewrite copy_db_ids_unfold. unfold copy_db_ids_body. simpl.
      destruct (10 <? length p) eqn:E; [apply Nat.ltb_lt in E; lia|].
      rewrite Hs, Ht. destruct (decide (TColl k2 <> TColl k2)); [done|].
      rewrite Hk2. unfold copy_seq.
      destruct (negb (length xs =? length ys)) eqn:El; [done|].
      apply negb_false_iff, Nat.eqb_eq in El. lia.
    - apply run_type_mismatch; simpl; rewrite ?Hs, ?Ht; congruence. }
  rewrite <- Hrun. apply recursed_into_propagate; [done|]. by rewrite Hrun.
Qed.

Lemma copy_db_ids_length_mismatch_witness :
  run lt_by_name (Call partial_store (VRef 0) (VRef 2) [])
  = (Raised (SQADecodeError [KStr "arms"] DifferentLengths),
     <[2 := OInst Obj [("_db_id", VInt 7); ("arms", VRef 3)]]> partial_store).
Proof.
  refine (copy_db_ids_length_mismatch lt_by_name
            (Call partial_store (VRef 0) (VRef 2) [])
            (<[2 := OInst Obj [("_db_id", VInt 7); ("arms", VRef 3)]]> partial_store)
            1 3 [KStr "arms"] CList CList [] [VInt 1] _ _
            eq_refl eq_refl eq_refl eq_refl _).
  - eapply rtc_l; [|apply rtc_refl].
    eapply calls_attr with (i := 1) (attr := "arms"); [simpl; lia|by vm_compute..].
  - simpl. lia.
  - simpl. lia.
Defined.

(** ** Collections that cannot be sorted *)

(** C6, as stated, fails when the first item is not a [Base] at all: a
    list of one dict is not a list of types, a dict has no order ([<]
    raises on it) and is no [SortableBase], and the call returns
    normally.  It also fails below the depth guard: the traversal recurses
    into two lists of a [Base] that is no [SortableBase] eleven attributes
    down, and the call returns normally. *)
Lemma copy_db_ids_unordered_first_returns :
  (copy_db_ids lt_by_name dict_list_store (VRef 0) (VRef 2) []
   = (Returned, dict_list_store)
   /\ is_type (VRef 1) = false
   /\ is_sortable dict_list_store (VRef 1) = false
   /\ lt_by_name dict_list_store (VRef 1) (VRef 1) = None)
  /\ (copy_db_ids lt_by_name deep_unsortable_store (VRef 0) (VRef 20) []
      = (Returned, deep_unsortable_store)
      /\ recursed_into lt_by_name
           (Call deep_unsortable_store (VRef 0) (VRef 20) [])
           (Call deep_unsortable_store (VRef 40) (VRef 41)
              (replicate 11 (KStr "child")))
      /\ deep_unsortable_store !! 40 = Some (OColl CList [VRef 42])
      /\ is_base deep_unsortable_store (VRef 42) = true
      /\ is_sortable deep_unsortable_store (VRef 42) = false).
Proof.
  split; [repeat split; by vm_compute|].
  split; [by vm_compute|]. split; [|repeat split; by vm_compute].
  unfold recursed_into. do 11 chain_step. apply rtc_refl.
Qed.

(** C6 (amended): when the traversal recurses into a pair of lists or sets
    of the same type, with a path of at most 10 items there, and the first
    item of [source] is an instance of a [Base] class that is not a
    [SortableBase], the call raises [SQADecodeError]: for the lengths when
    they differ, else for the class that cannot be sorted. *)
Theorem copy_db_ids_cannot_sort py_lt (root : call) (h : heap)
    (ls lt : loc) (p : list key) (k : coll_kind) (x0 : val) (xs ys : list val)
    (c : pyclass) :
  recursed_into py_lt root (Call h (VRef ls) (VRef lt) p) ->
  length p <= 10 ->
  h !! ls = Some (OColl k (x0 :: xs)) ->
  h !! lt = Some (OColl k ys) ->
  is_list_or_set k = true ->
  type_of h x0 = Some (TClass c) ->
  class_is_base c = true ->
  class_is_sortable c = false ->
  run py_lt root
  = (Raised (SQADecodeError p
       (if decide (length (x0 :: xs) = length ys) then CannotSort (TClass c)
        else DifferentLengths)), h).
Proof.
  intros Hrec Hlen Hs Ht Hk Hx0 Hbase Hsort.
  set (root_c := Call h (VRef ls) (VRef lt) p) in *.
  assert (run py_lt root_c
          = (Raised (SQADecodeError p
               (if decide (length (x0 :: xs) = length ys)
                then CannotSort (TClass c) else DifferentLengths)), h)) as Hrun.
  { unfold run, root_c. simpl c_heap. simpl c_source. simpl c_target. simpl c_path.
    rewrite copy_db_ids_unfold. unfold copy_db_ids_body.
    destruct (10 <? length p) eqn:E; [apply Nat.ltb_lt in E; lia|].
    simpl type_of. simpl deref. rewrite Hs, Ht.
    destruct (decide (TColl k <> TColl k)); [done|].
    rewrite Hk. simpl py_list. rewrite Ht. unfold copy_seq.
    destruct (decide (length (x0 :: xs) = length ys)) as [El|El].
    - rewrite El, Nat.eqb_refl. simpl negb. cbv iota.
      assert (is_type x0 = false) as -> by (by destruct x0).
      unfold is_base, is_sortable. by rewrite Hx0, Hbase, Hsort.
    - apply Nat.eqb_neq in El. by rewrite El. }
  rewrite <- Hrun. apply recursed_into_propagate; [done|].
  rewrite Hrun. by destruct (decide _).
Qed.

Lemma copy_db_ids_cannot_sort_witness :
  run lt_by_name (Call unsortable_store (VRef 0) (VRef 2) [])
  = (Raised (SQADecodeError [] (CannotSort (TClass Obj))), unsortable_store).
Proof.
  refine (copy_db_ids_cannot_sort lt_by_name
            (Call unsortable_store (VRef 0) (VRef 2) []) unsortable_store
            0 2 [] CList (VRef 1) [] [VRef 3] Obj _ _
            eq_refl eq_refl eq_refl eq_refl eq_refl eq_refl).
  - apply rtc_refl.
  - simpl. lia.
Defined.

(** ** Dictionaries *)

Lemma dict_loop_only_ids py_lt h items t p :
  only_ids_changed h (snd (dict_loop (copy_db_ids py_lt) h items t p)).
Proof.
  apply (dict_loop_inv (copy_db_ids py_lt) (fun hc => only_ids_changed h hc)
           (fun _ => True) h t p); auto.
  - intros hc s' t' x HI _. split; [|done].
    eapply only_ids_changed_trans; [done|]. apply copy_db_ids_only_ids.
  - apply only_ids_changed_refl.
Qed.

Lemma only_ids_changed_dict h h' l items :
  only_ids_changed h h' -> h !! l = Some (ODict items) -> h' !! l = Some (ODict items).
Proof. intros H E. specialize (H l). by rewrite E in H. Qed.

(** Two target dicts of the same store that agree on the keys of [source]
    cannot be told apart. *)
Lemma dict_loop_agree py_lt h0 h items lt lt' titems titems' p :
  only_ids_changed h0 h ->
  h0 !! lt = Some (ODict titems) ->
  h0 !! lt' = Some (ODict titems') ->
  (forall k, k ∈ items.*1 -> dict_get titems' k = dict_get titems k) ->
  dict_loop (copy_db_ids py_lt) h items (VRef lt') p
  = dict_loop (copy_db_ids py_lt) h items (VRef lt) p.
Proof.
  intros H0 Ht Ht'. revert h H0.
  induction items as [|[k v] items IH]; intros h H0 Hagree; simpl; [done|].
  rewrite (only_ids_changed_dict _ _ _ _ H0 Ht).
  rewrite (only_ids_changed_dict _ _ _ _ H0 Ht').
  rewrite (Hagree k) by (simpl; left).
  destruct (bool_decide (is_Some (dict_get titems k))); [|done].
  destruct (dict_get titems k) as [tv|]; [|done].
  pose proof (copy_db_ids_only_ids py_lt h v tv (p ++ [k])) as Hstep.
  destruct (copy_db_ids py_lt h v tv (p ++ [k])) as [[] h1]; try done.
  apply IH.
  - by eapply only_ids_changed_trans.
  - intros k' Hk'. apply Hagree. simpl. by right.
Qed.

(** C5, as stated, fails when an entry before the missing key fails: ["b"]
    is a key of [source] only, and the error is the one the values under
    ["a"] raise, which does not name ["b"].  It also fails below the depth
    guard: the traversal recurses into two dicts eleven attributes down,
    [target] lacks the key ["a"] of [source], and the call returns
    normally. *)
Lemma copy_db_ids_missing_key_not_named :
  (copy_db_ids lt_by_name two_keys_store (VRef 0) (VRef 1) []
   = (Raised (SQADecodeError [KStr "a"] (DifferentTypes TInt TStr)), two_keys_store)
   /\ py_contains two_keys_store (VRef 0) (KStr "b") = inr true
   /\ py_contains two_keys_store (VRef 1) (KStr "b") = inr false)
  /\ (copy_db_ids lt_by_name deep_dicts_store (VRef 0) (VRef 20) []
      = (Returned, deep_dicts_store)
      /\ recursed_into lt_by_name
           (Call deep_dicts_store (VRef 0) (VRef 20) [])
           (Call deep_dicts_store (VRef 40) (VRef 41) (replicate 11 (KStr "child")))
      /\ py_contains deep_dicts_store (VRef 40) (KStr "a") = inr true
      /\ py_contains deep_dicts_store (VRef 41) (KStr "a") = inr false).
Proof.
  split; [repeat split; by vm_compute|].
  split; [by vm_compute|]. split; [|repeat split; by vm_compute].
  unfold recursed_into. do 11 chain_step. apply rtc_refl.
Qed.

(** C5 (amended): when the traversal recurses into a pair of dicts, with a
    path of at most 10 items there, a key of [source] that [target] lacks
    makes the call raise the [SQADecodeError] that names this key, provided
    the entries of [source] before it are traversed without an error; and
    the keys [target] has beyond those of [source] are ignored: a target
    dict that agrees with [target] on the keys of [source] gives the same
    result. *)
Theorem copy_db_ids_missing_key py_lt (root : call) (h : heap) (ls lt : loc)
    (p : list key) (items titems : list (key * val)) :
  recursed_into py_lt root (Call h (VRef ls) (VRef lt) p) ->
  length p <= 10 ->
  h !! ls = Some (ODict items) ->
  h !! lt = Some (ODict titems) ->
  (forall pre k v post h1,
      items = pre ++ (k, v) :: post ->
      dict_get titems k = None ->
      dict_loop (copy_db_ids py_lt) h pre (VRef lt) p = (Returned, h1) ->
      run py_lt root = (Raised (SQADecodeError p (KeyOnlyInSource k)), h1))
  /\ (forall lt' titems',
        h !! lt' = Some (ODict titems') ->
        (forall k, k ∈ items.*1 -> dict_get titems' k = dict_get titems k) ->
        copy_db_ids py_lt h (VRef ls) (VRef lt') p
        = copy_db_ids py_lt h (VRef ls) (VRef lt) p).
Proof.
  intros Hrec Hlen Hs Ht. split.
  - intros pre k v post h1 -> Hk Hpre.
    set (c := Call h (VRef ls) (VRef lt) p) in *.
    assert (run py_lt c = (Raised (SQADecodeError p (KeyOnlyInSource k)), h1))
      as Hrun.
    { unfold run, c. simpl c_heap. simpl c_source. simpl c_target. simpl c_path.
      rewrite copy_db_ids_unfold. unfold copy_db_ids_body.
      destruct (10 <? length p) eqn:E; [apply Nat.ltb_lt in E; lia|].
      simpl type_of. simpl deref. rewrite Hs, Ht.
      destruct (decide (TDict <> TDict)); [done|].
      rewrite dict_loop_split, Hpre. simpl.
      pose proof (dict_loop_only_ids py_lt h pre (VRef lt) p) as Hids.
      rewrite Hpre in Hids. simpl in Hids.
      rewrite (only_ids_changed_dict _ _ _ _ Hids Ht), Hk.
      rewrite bool_decide_eq_false_2; [done|]. by intros [? ?]. }
    rewrite <- Hrun. apply recursed_into_propagate; [done|]. by rewrite Hrun.
  - intros lt' titems' Ht' Hagree.
    rewrite !copy_db_ids_unfold. unfold copy_db_ids_body.
    simpl type_of. simpl deref. rewrite Hs, Ht, Ht'.
    destruct (10 <? length p); [done|].
    destruct (decide (TDict <> TDict)); [done|].
    eapply dict_loop_agree; eauto. apply only_ids_changed_refl.
Qed.

Lemma copy_db_ids_missing_key_witness :
  run lt_by_name (Call missing_key_store (VRef 0) (VRef 1) [])
  = (Raised (SQADecodeError [] (KeyOnlyInSource (KStr "a"))), missing_key_store)
  /\ copy_db_ids lt_by_name missing_key_store (VRef 0) (VRef 2) []
     = copy_db_ids lt_by_name missing_key_store (VRef 0) (VRef 3) [].
Proof.
  split.
  - refine (proj1 (copy_db_ids_missing_key lt_by_name
              (Call missing_key_store (VRef 0) (VRef 1) []) missing_key_store
              0 1 [] [(KStr "a", VRef 4)] [] _ _ eq_refl eq_refl)
              [] (KStr "a") (VRef 4) [] missing_key_store eq_refl eq_refl eq_refl).
    + apply rtc_refl.
    + simpl. lia.
  - refine (proj2 (copy_db_ids_missing_key lt_by_name
              (Call missing_key_store (VRef 0) (VRef 3) []) missing_key_store
              0 3 [] [(KStr "a", VRef 4)] [(KStr "a", VRef 5)] _ _ eq_refl eq_refl)
              2 [(KStr "a", VRef 5); (KStr "z", VNone)] eq_refl _).
    + apply rtc_refl.
    + simpl. lia.
    + intros k Hk. apply list_elem_of_In in Hk. simpl in Hk.
      destruct Hk as [<-|[]]. reflexivity.
Defined.

(** ** Sorting *)

Section Sorting.
Variable py_lt : heap -> val -> val -> option bool.

Lemma strict_total_order_subseteq h xs ys :
  ys ⊆ xs -> strict_total_order py_lt h xs -> strict_total_order py_lt h ys.
Proof.
  intros Hsub (Hdef & Hirr & Htr & Htot). repeat split.
  - intros x y Hx Hy. apply Hdef; by apply Hsub.
  - intros x Hx. apply Hirr; by apply Hsub.
  - intros x y z Hx Hy Hz. apply Htr; by apply Hsub.
  - intros x y Hx Hy. apply Htot; by apply Hsub.
Qed.

Lemma strict_total_order_perm h xs ys :
  ys ≡ₚ xs -> strict_total_order py_lt h xs -> strict_total_order py_lt h ys.
Proof.
  intros Hp. apply strict_total_order_subseteq. intros x Hx. by rewrite <- Hp.
Qed.

Lemma py_le_antisym h xs x y :
  strict_total_order py_lt h xs -> x ∈ xs -> y ∈ xs ->
  py_le py_lt h x y -> py_le py_lt h y x -> x = y.
Proof.
  intros (Hdef & Hirr & Htr & Htot) Hx Hy [E1|Hxy] [E2|Hyx]; [done..|].
  pose proof (Htr x y x Hx Hy Hx Hxy Hyx) as Hxx.
  rewrite (Hirr x Hx) in Hxx. discriminate.
Qed.

Lemma insort_sorted h x l :
  strict_total_order py_lt h (x :: l) ->
  StronglySorted (py_le py_lt h) l ->
  exists l', insort py_lt h x l = Some l' /\ StronglySorted (py_le py_lt h) l'.
Proof.
  induction l as [|y l IH]; intros Hord Hl; simpl.
  - exists [x]. split; [done|]. repeat constructor.
  - pose proof Hord as (Hdef & Hirr & Htr & Htot).
    assert (x ∈ x :: y :: l) as Hx by (left).
    assert (y ∈ x :: y :: l) as Hy by (right; left).
    apply StronglySorted_inv in Hl as [Hl Hyl].
    destruct (Hdef x y Hx Hy) as [[] Exy]; rewrite Exy.
    + exists (x :: y :: l). split; [done|].
      constructor; [by constructor|].
      constructor; [by right|].
      rewrite Forall_forall in Hyl |- *. intros z Hz.
      destruct (Hyl z Hz) as [<-|Hyz]; [by right|].
      right. apply (Htr x y z); auto. by do 2 right.
    + destruct IH as (l' & El' & Hl'); [|done|].
      { eapply strict_total_order_subseteq; [|done].
        intros z Hz. apply elem_of_cons in Hz as [->|Hz]; [left|by do 2 right]. }
      rewrite El'. simpl. exists (y :: l'). split; [done|].
      constructor; [done|].
      rewrite Forall_forall. intros z Hz.
      rewrite (insort_perm _ _ _ _ _ El') in Hz.
      apply elem_of_cons in Hz as [->|Hz].
      * destruct (decide (y = x)) as [->|Hne]; [by left|].
        destruct (Htot y x Hy Hx Hne) as [?|Hxy]; [by right|congruence].
      * rewrite Forall_forall in Hyl. by apply Hyl.
Qed.

Lemma sorted_from_sorted h l acc :
  strict_total_order py_lt h (acc ++ l) ->
  StronglySorted (py_le py_lt h) acc ->
  exists l', sorted_from py_lt h (Some acc) l = Some l'
             /\ StronglySorted (py_le py_lt h) l'.
Proof.
  revert acc. induction l as [|x l IH]; intros acc Hord Hacc; simpl.
  - by exists acc.
  - destruct (insort_sorted h x acc) as (acc' & E & Hacc'); [|done|].
    { eapply strict_total_order_subseteq; [|done].
      intros z Hz. apply elem_of_cons in Hz as [->|Hz];
        apply elem_of_app; [right; left|by left]. }
    rewrite E. simpl. apply IH; [|done].
    eapply strict_total_order_perm; [|done].
    rewrite (insort_perm _ _ _ _ _ E). by rewrite <- Permutation_middle.
Qed.

(** On a strict total order [sorted] succeeds, and its result is the one
    sorted arrangement of the items. *)
Lemma sorted_total h xs :
  strict_total_order py_lt h xs ->
  exists sx, sorted py_lt h xs = Some sx
             /\ StronglySorted (py_le py_lt h) sx /\ sx ≡ₚ xs.
Proof.
  intros Hord. destruct (sorted_from_sorted h xs []) as (sx & E & Hsx);
    [done|constructor|].
  exists sx. split; [done|]. split; [done|]. by apply sorted_perm in E.
Qed.

Lemma sorted_permutation h xs xs' :
  strict_total_order py_lt h xs -> xs' ≡ₚ xs ->
  sorted py_lt h xs' = sorted py_lt h xs.
Proof.
  intros Hord Hp.
  destruct (sorted_total h xs Hord) as (sx & E & Hsx & Px).
  destruct (sorted_total h xs') as (sx' & E' & Hsx' & Px').
  { by eapply strict_total_order_perm. }
  rewrite E, E'. f_equal.
  apply (StronglySorted_unique_strong (py_le py_lt h)); [|done..|].
  - intros x y Hx Hy. apply (py_le_antisym h xs); [done| |].
    + by rewrite <- Hp, <- Px'.
    + by rewrite <- Px.
  - by rewrite Px', Px.
Qed.
End Sorting.

(** ** Alignment by sorting *)

Lemma has_order_head h x0 xs :
  Forall (has_order h) (x0 :: xs) ->
  is_type x0 = false /\ is_base h x0 && negb (is_sortable h x0) = false.
Proof.
  intros [[Hty Hs] _]%Forall_cons. split; [done|].
  destruct (is_base h x0); [|done]. by rewrite Hs.
Qed.

Lemma copy_seq_permutation py_lt rec h xs ys xs' ys' p :
  length xs = length ys ->
  mutually_orderable py_lt h xs -> mutually_orderable py_lt h ys ->
  xs' ≡ₚ xs -> ys' ≡ₚ ys ->
  copy_seq py_lt rec h xs' ys' p = copy_seq py_lt rec h xs ys p.
Proof.
  intros Hlen [Hx Hox] [Hy Hoy] Px Py. unfold copy_seq.
  rewrite (Permutation_length Px), (Permutation_length Py).
  destruct (negb (length xs =? length ys)); [done|].
  rewrite (sorted_permutation py_lt h xs xs' Hox Px).
  rewrite (sorted_permutation py_lt h ys ys' Hoy Py).
  destruct xs as [|x0 xs]; [by apply Permutation_nil_r in Px as ->|].
  destruct xs' as [|x0' xs']; [by apply Permutation_nil in Px|].
  assert (Forall (has_order h) (x0' :: xs')) as Hx' by (by rewrite Px).
  destruct (has_order_head _ _ _ Hx) as [-> ->].
  by destruct (has_order_head _ _ _ Hx') as [-> ->].
Qed.

Lemma copy_seq_sorted py_lt rec h xs ys p :
  length xs = length ys ->
  mutually_orderable py_lt h xs -> mutually_orderable py_lt h ys ->
  exists sx sy,
    StronglySorted (py_le py_lt h) sx /\ sx ≡ₚ xs
    /\ StronglySorted (py_le py_lt h) sy /\ sy ≡ₚ ys
    /\ copy_seq py_lt rec h xs ys p = seq_loop rec 0 h sx sy p.
Proof.
  intros Hlen [Hx Hox] [Hy Hoy].
  destruct (sorted_total py_lt h xs Hox) as (sx & Ex & Hsx & Px).
  destruct (sorted_total py_lt h ys Hoy) as (sy & Ey & Hsy & Py).
  exists sx, sy. repeat (split; [done|]). unfold copy_seq.
  rewrite Hlen, Nat.eqb_refl. simpl negb. cbv iota.
  destruct xs as [|x0 xs].
  { by apply Permutation_nil_r in Px as ->. }
  destruct (has_order_head _ _ _ Hx) as [-> ->]. by rewrite Ex, Ey.
Qed.

(** The example of the specification: the source items have ids 1 and 2
    and names ["b"] and ["a"], the target items come in the order ["a"],
    ["b"]; each target item receives the id of the source item of its
    name, not of the one at its place. *)
Example copy_db_ids_sorted_counterpart :
  let h' := snd (copy_db_ids lt_by_name arms_store (VRef 0) (VRef 3) []) in
  fst (copy_db_ids lt_by_name arms_store (VRef 0) (VRef 3) []) = Returned
  /\ getattr h' (VRef 4) "_db_id" = inr (VInt 2)
  /\ getattr h' (VRef 5) "_db_id" = inr (VInt 1).
Proof. repeat split; by vm_compute. Qed.

(** ** Identifiers are copied *)

Lemma type_of_only_ids h h' v :
  only_ids_changed h h' -> type_of h' v = type_of h v.
Proof.
  intros H. destruct v as [| | | |l]; try done. simpl.
  specialize (H l). destruct (h !! l) as [[c d| |]|].
  - by destruct H as (d' & -> & _).
  - by rewrite H.
  - by rewrite H.
  - by rewrite H.
Qed.

Lemma is_base_only_ids h h' v :
  only_ids_changed h h' -> is_base h' v = is_base h v.
Proof. intros H. unfold is_base. by rewrite (type_of_only_ids _ _ _ H). Qed.

Lemma is_sortable_only_ids h h' v :
  only_ids_changed h h' -> is_sortable h' v = is_sortable h v.
Proof. intros H. unfold is_sortable. by rewrite (type_of_only_ids _ _ _ H). Qed.

Lemma insort_ext py_lt h h' x l :
  (forall a b, py_lt h' a b = py_lt h a b) ->
  insort py_lt h' x l = insort py_lt h x l.
Proof.
  intros H. induction l as [|y l IH]; simpl; [done|]. by rewrite H, IH.
Qed.

Lemma sorted_ext py_lt h h' l :
  (forall a b, py_lt h' a b = py_lt h a b) ->
  sorted py_lt h' l = sorted py_lt h l.
Proof.
  intros H. unfold sorted. generalize (Some (@nil val)).
  induction l as [|x l IH]; intros acc; simpl; [done|].
  rewrite <- IH. f_equal. destruct acc; simpl; [|done]. by apply insort_ext.
Qed.

Lemma dict_get_lookup {K V} `{EqDecision K} (d : list (K * V)) i k v :
  NoDup d.*1 -> d !! i = Some (k, v) -> dict_get d k = Some v.
Proof.
  revert i. induction d as [|[k0 v0] d IH]; intros i Hnd Hi; [done|].
  apply NoDup_cons in Hnd as [Hk0 Hnd]. simpl.
  destruct i as [|i]; simpl in Hi.
  - injection Hi as -> ->. by destruct (decide (k = k)).
  - destruct (decide (k = k0)) as [->|]; [|by eapply IH].
    exfalso. apply Hk0. apply list_elem_of_fmap. exists (k0, v).
    split; [done|]. by eapply list_elem_of_lookup_2.
Qed.

Lemma corresponds_mono py_lt m (P P' : loc -> loc -> Prop) h d s t :
  (forall lt ls, m !! lt = Some ls -> P lt ls -> P' lt ls) ->
  corresponds py_lt m P h d s t -> corresponds py_lt m P' h d s t.
Proof.
  intros HP. revert s t. induction d as [|d IH]; intros s t; simpl; [done|].
  intros [H|[H|[H|H]]].
  - by left.
  - right; left.
    destruct H as (ls & lt & c & ds & dt & -> & -> & Es & Et & Hb & Hnd & Hm & Hms & HPl & Hattrs).
    exists ls, lt, c, ds, dt. repeat (split; [done|]). split; [by apply HP|].
    intros attr v Ha Hid Hsk. destruct (Hattrs attr v Ha Hid Hsk) as (tv & Etv & Hc).
    exists tv. split; [done|]. by apply IH.
  - right; right; left.
    destruct H as (ls & lt & k & xs & ys & -> & -> & Es & Et & Hk & Hlen & Hitems).
    exists ls, lt, k, xs, ys. repeat (split; [done|]).
    destruct xs as [|x0 xs]; [done|].
    destruct Hitems as [Hty|(Hty & Hso & sx & sy & Esx & Esy & Hall)]; [by left|].
    right. repeat (split; [done|]). exists sx, sy. repeat (split; [done|]).
    eapply Forall2_impl; [done|]. intros x y. apply IH.
  - right; right; right.
    destruct H as (ls & lt & items & titems & -> & -> & Es & Et & Hitems).
    exists ls, lt, items, titems. repeat (split; [done|]).
    intros k v Hkv. destruct (Hitems k v Hkv) as (tv & Etv & Hc).
    exists tv. split; [done|]. by apply IH.
Qed.

Lemma dict_get_Some_lookup {K V} `{EqDecision K} (d : list (K * V)) k v :
  dict_get d k = Some v -> exists i, d !! i = Some (k, v).
Proof.
  induction d as [|[k0 v0] d IH]; simpl; [done|].
  destruct (decide (k = k0)) as [->|].
  - intros [= ->]. by exists 0.
  - intros H. destruct (IH H) as [i Hi]. by exists (S i).
Qed.

Lemma copy_db_ids_leaf py_lt h s t p :
  leaf_pair h s t -> copy_db_ids py_lt h s t p = (Returned, h).
Proof.
  intros (ty & Hs & Ht & Hleaf). rewrite copy_db_ids_unfold.
  unfold copy_db_ids_body. destruct (10 <? length p); [done|].
  rewrite Hs, Ht. destruct (decide (ty <> ty)); [done|].
  destruct s as [| | | |l]; try done. simpl in *.
  destruct (h !! l) as [[c d|k xs|items]|]; try done.
  - injection Hs as <-. simpl in Hleaf.
    by destruct (class_is_base c).
  - injection Hs as <-. simpl in Hleaf.
    by destruct (is_list_or_set k).
  - by injection Hs as <-.
Qed.

Section Copies.
Variable py_lt : heap -> val -> val -> option bool.
Variable m : gmap loc loc.
Variable h0 : heap.

(** The order does not look at identifier fields. *)
Hypothesis py_lt_ids : forall h h' x y,
  only_ids_changed h h' -> py_lt h' x y = py_lt h x y.

Lemma evolved_refl : evolved m h0 h0.
Proof. split; [apply only_ids_changed_refl|done]. Qed.

Lemma keeps_synced_refl hc : keeps_synced m h0 hc hc.
Proof. by intros lt ls c ds a v _ _ _ _ H. Qed.

Lemma keeps_synced_trans h1 h2 h3 :
  keeps_synced m h0 h1 h2 -> keeps_synced m h0 h2 h3 -> keeps_synced m h0 h1 h3.
Proof. intros H12 H23 lt ls c ds a v Hm Hs Ha Hid H. eauto. Qed.

Lemma ids_copied_keeps hc hc' lt ls :
  keeps_synced m h0 hc hc' -> m !! lt = Some ls ->
  ids_copied h0 hc lt ls -> ids_copied h0 hc' lt ls.
Proof. intros Hk Hm H c ds a v Hs Ha Hid. eauto. Qed.

Lemma corresponds_keeps hc hc' d s t :
  keeps_synced m h0 hc hc' ->
  corresponds py_lt m (ids_copied h0 hc) h0 d s t ->
  corresponds py_lt m (ids_copied h0 hc') h0 d s t.
Proof.
  intros Hk. apply corresponds_mono. intros lt ls. by apply ids_copied_keeps.
Qed.

Lemma leaf_pair_evolved hc s t :
  evolved m h0 hc -> leaf_pair h0 s t -> leaf_pair hc s t.
Proof.
  intros [Hids _] (ty & Hs & Ht & Hleaf). exists ty.
  by rewrite !(type_of_only_ids _ _ _ Hids).
Qed.

Lemma evolved_instance hc l c d :
  evolved m h0 hc -> h0 !! l = Some (OInst c d) ->
  exists d', hc !! l = Some (OInst c d') /\ same_fields d d'.
Proof. intros [Hids _] E. specialize (Hids l). by rewrite E in Hids. Qed.

Lemma evolved_source hc l :
  evolved m h0 hc -> m !! l = None -> hc !! l = h0 !! l.
Proof. intros [_ H]. apply H. Qed.

Lemma evolved_coll hc l k xs :
  evolved m h0 hc -> h0 !! l = Some (OColl k xs) -> hc !! l = Some (OColl k xs).
Proof. intros [Hids _] E. specialize (Hids l). by rewrite E in Hids. Qed.

Lemma evolved_dict hc l items :
  evolved m h0 hc -> h0 !! l = Some (ODict items) -> hc !! l = Some (ODict items).
Proof. intros [Hids _] E. specialize (Hids l). by rewrite E in Hids. Qed.

(** Writing the identifier of the source into its target. *)
Lemma setattr_step hc lt ls c ds dt a v :
  evolved m h0 hc -> m !! lt = Some ls ->
  h0 !! ls = Some (OInst c ds) -> dict_get ds a = Some v -> is_db_id a = true ->
  hc !! lt = Some (OInst c dt) ->
  evolved m h0 (<[lt := OInst c (dict_set dt a v)]> hc)
  /\ keeps_synced m h0 hc (<[lt := OInst c (dict_set dt a v)]> hc)
  /\ synced_at (<[lt := OInst c (dict_set dt a v)]> hc) lt a v.
Proof.
  intros [Hids Hout] Hm Hs Ha Hid Ht. split; [split|split].
  - eapply only_ids_changed_trans; [done|].
    apply (only_ids_changed_setattr hc (VRef lt) a v); [done|].
    simpl. by rewrite Ht.
  - intros l Hl. rewrite lookup_insert_ne; [by apply Hout|]. intros ->. congruence.
  - intros lt2 ls2 c2 ds2 a2 v2 Hm2 Hs2 Ha2 Hid2 (c3 & dt3 & E3 & G3).
    destruct (decide (lt2 = lt)) as [->|Hne].
    + rewrite Ht in E3. injection E3 as <- <-.
      rewrite Hm in Hm2. injection Hm2 as <-.
      rewrite Hs in Hs2. injection Hs2 as <- <-.
      exists c, (dict_set dt a v). rewrite lookup_insert_eq. split; [done|].
      rewrite dict_get_set. destruct (decide (a2 = a)) as [->|]; [congruence|done].
    + exists c3, dt3. by rewrite lookup_insert_ne.
  - exists c, (dict_set dt a v). rewrite lookup_insert_eq. split; [done|].
    rewrite dict_get_set. by destruct (decide (a = a)).
Qed.

Lemma attrs_ok d ls lt c ds dt p :
  copies_ok py_lt m h0 d -> S d = 11 - length p ->
  h0 !! ls = Some (OInst c ds) -> h0 !! lt = Some (OInst c dt) ->
  NoDup ds.*1 -> m !! lt = Some ls -> m !! ls = None ->
  (forall attr v, dict_get ds attr = Some v ->
     is_db_id attr = false -> is_skipped attr = false ->
     exists tv, dict_get dt attr = Some tv /\ isomorphic py_lt m h0 d v tv) ->
  forall todo i hi,
    i + todo = length ds -> evolved m h0 hi ->
    exists h',
      attrs_loop (copy_db_ids py_lt) todo i (length ds) hi (VRef ls) (VRef lt) p
      = (Returned, h')
      /\ evolved m h0 h' /\ keeps_synced m h0 hi h'
      /\ forall j attr v, i <= j -> ds !! j = Some (attr, v) ->
           (is_db_id attr = true -> synced_at h' lt attr v)
           /\ (is_db_id attr = false -> is_skipped attr = false ->
               exists tv, dict_get dt attr = Some tv
                 /\ corresponds py_lt m (ids_copied h0 h') h0 d v tv).
Proof.
  intros Hok Hd Hs Ht Hnd Hm Hms Hattrs.
  induction todo as [|todo IH]; intros i hi Hi Hev.
  - exists hi. simpl. rewrite (evolved_source _ _ Hev Hms), Hs, Nat.eqb_refl.
    split; [done|]. split; [done|]. split; [apply keeps_synced_refl|].
    intros j attr v Hj Hlk. apply lookup_lt_Some in Hlk. lia.
  - simpl. rewrite (evolved_source _ _ Hev Hms), Hs, Nat.eqb_refl. simpl.
    destruct (lookup_lt_is_Some_2 ds i) as [[attr v] Ei]; [lia|]. rewrite Ei.
    pose proof (dict_get_lookup _ _ _ _ Hnd Ei) as Hget.
    destruct (evolved_instance _ _ _ _ Hev Ht) as (dti & Eti & Hsame).
    destruct (is_db_id attr) eqn:Hid.
    + (* an identifier field *)
      rewrite Eti.
      destruct (setattr_step hi lt ls c ds dti attr v) as (Hev' & Hk' & Hsy'); try done.
      destruct (IH (S i) _ ltac:(lia) Hev') as (h' & Hrun & Hev'' & Hk'' & Hfacts).
      exists h'. split; [done|]. split; [done|].
      split; [by eapply keeps_synced_trans|].
      intros j attr' v' Hj Hlk. destruct (decide (j = i)) as [->|Hne].
      * rewrite Ei in Hlk. injection Hlk as <- <-. split; [|congruence].
        intros _. by eapply Hk''.
      * apply (Hfacts j); [lia|done].
    + destruct (is_skipped attr) eqn:Hsk.
      * (* a skipped field *)
        destruct (IH (S i) _ ltac:(lia) Hev) as (h' & Hrun & Hev'' & Hk'' & Hfacts).
        exists h'. repeat (split; [done|]).
        intros j attr' v' Hj Hlk. destruct (decide (j = i)) as [->|Hne].
        -- rewrite Ei in Hlk. injection Hlk as <- <-. split; congruence.
        -- apply (Hfacts j); [lia|done].
      * (* a field to traverse *)
        destruct (Hattrs attr v Hget Hid Hsk) as (tv & Etv & Hiso).
        rewrite Eti, (Hsame attr Hid), Etv.
        destruct (Hok hi v tv (p ++ [KStr attr])) as (hi' & Hrun1 & Hev' & Hk' & Hc');
          [rewrite length_app; simpl; lia|done..|].
        rewrite Hrun1.
        destruct (IH (S i) _ ltac:(lia) Hev') as (h' & Hrun & Hev'' & Hk'' & Hfacts).
        exists h'. split; [done|]. split; [done|].
        split; [by eapply keeps_synced_trans|].
        intros j attr' v' Hj Hlk. destruct (decide (j = i)) as [->|Hne].
        -- rewrite Ei in Hlk. injection Hlk as <- <-. split; [congruence|].
           intros _ _. exists tv. split; [done|]. by eapply corresponds_keeps.
        -- apply (Hfacts j); [lia|done].
Qed.
Lemma seq_ok d p :
  copies_ok py_lt m h0 d -> S d = 11 - length p ->
  forall sx sy, Forall2 (isomorphic py_lt m h0 d) sx sy ->
  forall pre hi, evolved m h0 hi ->
    exists h',
      seq_loop (copy_db_ids py_lt) (length pre) hi sx (pre ++ sy) p = (Returned, h')
      /\ evolved m h0 h' /\ keeps_synced m h0 hi h'
      /\ Forall2 (corresponds py_lt m (ids_copied h0 h') h0 d) sx sy.
Proof.
  intros Hok Hd sx sy Hall.
  induction Hall as [|x y sx sy Hxy Hall IH]; intros pre hi Hev; simpl.
  - exists hi. split; [done|]. split; [done|].
    split; [apply keeps_synced_refl|constructor].
  - rewrite list_lookup_middle by done.
    destruct (Hok hi x y (p ++ [str_of_index (length pre)]))
      as (hi' & Hrun1 & Hev' & Hk' & Hc');
      [rewrite length_app; simpl; lia|done..|].
    rewrite Hrun1.
    destruct (IH (pre ++ [y]) hi' Hev') as (h' & Hrun & Hev'' & Hk'' & Hfacts).
    rewrite length_app, <- app_assoc in Hrun. simpl in Hrun.
    rewrite Nat.add_1_r in Hrun.
    exists h'. split; [done|]. split; [done|].
    split; [by eapply keeps_synced_trans|].
    constructor; [by eapply corresponds_keeps|done].
Qed.

Lemma dict_ok d p lt titems :
  copies_ok py_lt m h0 d -> S d = 11 - length p ->
  h0 !! lt = Some (ODict titems) ->
  forall items hi,
    (forall k v, (k, v) ∈ items ->
       exists tv, dict_get titems k = Some tv /\ isomorphic py_lt m h0 d v tv) ->
    evolved m h0 hi ->
    exists h',
      dict_loop (copy_db_ids py_lt) hi items (VRef lt) p = (Returned, h')
      /\ evolved m h0 h' /\ keeps_synced m h0 hi h'
      /\ forall k v, (k, v) ∈ items ->
           exists tv, dict_get titems k = Some tv
             /\ corresponds py_lt m (ids_copied h0 h') h0 d v tv.
Proof.
  intros Hok Hd Ht.
  induction items as [|[k v] items IH]; intros hi Hitems Hev; simpl.
  - exists hi. split; [done|]. split; [done|].
    split; [apply keeps_synced_refl|]. intros k v Hkv. by apply elem_of_nil in Hkv.
  - destruct (Hitems k v) as (tv & Etv & Hiso); [left|].
    rewrite (evolved_dict _ _ _ Hev Ht), Etv.
    rewrite bool_decide_eq_true_2 by eauto.
    destruct (Hok hi v tv (p ++ [k])) as (hi' & Hrun1 & Hev' & Hk' & Hc');
      [rewrite length_app; simpl; lia|done..|].
    rewrite Hrun1.
    destruct (IH hi') as (h' & Hrun & Hev'' & Hk'' & Hfacts); [|done|].
    { intros k' v' Hkv. apply Hitems. by right. }
    exists h'. split; [done|]. split; [done|].
    split; [by eapply keeps_synced_trans|].
    intros k' v' Hkv. apply elem_of_cons in Hkv as [[= -> ->]|Hkv].
    + exists tv. split; [done|]. by eapply corresponds_keeps.
    + by apply Hfacts.
Qed.

Lemma copy_db_ids_ok d : copies_ok py_lt m h0 d.
Proof.
  induction d as [|d IHd]; intros hc s t p Hd Hev Hiso.
  - (* only leaves at the depth of the guard *)
    exists hc. split; [|split; [done|split; [apply keeps_synced_refl|done]]].
    apply copy_db_ids_leaf. by eapply leaf_pair_evolved.
  - destruct Hiso as [Hleaf|[Hinst|[Hseq|Hdict]]].
    + exists hc. split; [|split; [done|split; [apply keeps_synced_refl|by left]]].
      apply copy_db_ids_leaf. by eapply leaf_pair_evolved.
    + (* two instances *)
      destruct Hinst as (ls & lt & c & ds & dt & -> & -> & Es & Et & Hb & Hnd
                         & Hm & Hms & _ & Hattrs).
      destruct (attrs_ok d ls lt c ds dt p IHd Hd Es Et Hnd Hm Hms Hattrs
                  (length ds) 0 hc eq_refl Hev)
        as (h' & Hrun & Hev' & Hk' & Hfacts).
      exists h'. split; [|split; [done|split; [done|]]].
      * rewrite copy_db_ids_unfold. unfold copy_db_ids_body.
        destruct (10 <? length p) eqn:E; [apply Nat.ltb_lt in E; lia|].
        destruct (evolved_instance _ _ _ _ Hev Et) as (dt' & Et' & _).
        simpl type_of. simpl deref.
        rewrite (evolved_source _ _ Hev Hms), Es, Et'.
        destruct (decide (TClass c <> TClass c)); [done|]. by rewrite Hb.
      * right; left. exists ls, lt, c, ds, dt. repeat (split; [done|]). split.
        -- intros c' ds' a v Es' Ha Hid. rewrite Es in Es'. injection Es' as <- <-.
           destruct (dict_get_Some_lookup _ _ _ Ha) as [j Hj].
           by apply (Hfacts j a v ltac:(lia) Hj).
        -- intros a v Ha Hid Hsk.
           destruct (dict_get_Some_lookup _ _ _ Ha) as [j Hj].
           by apply (Hfacts j a v ltac:(lia) Hj).
    + (* two lists or sets *)
      destruct Hseq as (ls & lt & k & xs & ys & -> & -> & Es & Et & Hk & Hlen & Hitems).
      assert (copy_db_ids py_lt hc (VRef ls) (VRef lt) p
              = copy_seq py_lt (copy_db_ids py_lt) hc xs ys p) as Hunf.
      { rewrite copy_db_ids_unfold. unfold copy_db_ids_body.
        destruct (10 <? length p) eqn:E; [apply Nat.ltb_lt in E; lia|].
        simpl type_of. simpl deref. simpl py_list.
        rewrite (evolved_coll _ _ _ _ Hev Es), (evolved_coll _ _ _ _ Hev Et).
        destruct (decide (TColl k <> TColl k)); [done|]. by rewrite Hk. }
      rewrite Hunf. unfold copy_seq. rewrite Hlen, Nat.eqb_refl. simpl negb. cbv iota.
      destruct xs as [|x0 xs].
      { exists hc. split; [done|]. split; [done|]. split; [apply keeps_synced_refl|].
        right; right; left. exists ls, lt, k, [], ys. by repeat (split; [done|]). }
      destruct Hitems as [Hty|(Hty & Hso & sx & sy & Esx & Esy & Hall)].
      { rewrite Hty. exists hc. split; [done|]. split; [done|].
        split; [apply keeps_synced_refl|].
        right; right; left. exists ls, lt, k, (x0 :: xs), ys.
        repeat (split; [done|]). by left. }
      rewrite Hty. destruct Hev as [Hids Hout].
      rewrite (is_base_only_ids _ _ _ Hids), (is_sortable_only_ids _ _ _ Hids), Hso.
      rewrite (sorted_ext py_lt h0 hc (x0 :: xs)), Esx by (intros; by apply py_lt_ids).
      rewrite (sorted_ext py_lt h0 hc ys), Esy by (intros; by apply py_lt_ids).
      destruct (seq_ok d p IHd Hd sx sy Hall [] hc (conj Hids Hout))
        as (h' & Hrun & Hev' & Hk' & Hfacts).
      exists h'. split; [done|]. split; [done|]. split; [done|].
      right; right; left. exists ls, lt, k, (x0 :: xs), ys.
      repeat (split; [done|]). right. repeat (split; [done|]).
      exists sx, sy. by repeat (split; [done|]).
    + (* two dicts *)
      destruct Hdict as (ls & lt & items & titems & -> & -> & Es & Et & Hitems).
      destruct (dict_ok d p lt titems IHd Hd Et items hc Hitems Hev)
        as (h' & Hrun & Hev' & Hk' & Hfacts).
      exists h'. split; [|split; [done|split; [done|]]].
      * rewrite copy_db_ids_unfold. unfold copy_db_ids_body.
        destruct (10 <? length p) eqn:E; [apply Nat.ltb_lt in E; lia|].
        simpl type_of. simpl deref.
        rewrite (evolved_dict _ _ _ Hev Es), (evolved_dict _ _ _ Hev Et).
        by destruct (decide (TDict <> TDict)).
      * right; right; right. exists ls, lt, items, titems. by repeat (split; [done|]).
Qed.
End Copies.

(** C1, as stated, fails at the positions the traversal leaves out: under
    [_experiment] the identifier [5] of the source is not copied, and
    neither is the identifier of an object held in a tuple; both calls
    return normally on graphs of the same shape. *)
Lemma copy_db_ids_leaves_positions_out :
  (copy_db_ids lt_by_name backref_store (VRef 0) (VRef 2) []
   = (Returned,
      <[2 := OInst Obj [("_db_id", VInt 1); ("_experiment", VRef 3)]]> backref_store)
   /\ getattr backref_store (VRef 0) "_experiment" = inr (VRef 1)
   /\ getattr backref_store (VRef 2) "_experiment" = inr (VRef 3)
   /\ getattr backref_store (VRef 1) "_db_id" = inr (VInt 5)
   /\ getattr (snd (copy_db_ids lt_by_name backref_store (VRef 0) (VRef 2) []))
        (VRef 3) "_db_id" = inr VNone)
  /\ (copy_db_ids lt_by_name tuple_pair_store (VRef 0) (VRef 2) []
      = (Returned, tuple_pair_store)
      /\ getattr tuple_pair_store (VRef 1) "_db_id" = inr (VInt 1)
      /\ getattr tuple_pair_store (VRef 3) "_db_id" = inr VNone).
Proof. repeat split; by vm_compute. Qed.

(** C1 (amended): when [source] and [target] are graphs of the same shape
    along the positions the traversal pairs, every composite position is
    within the depth guard, each target instance stands for one source
    instance that is not itself a target, and the order does not look at
    identifier fields, the call returns normally; afterwards every field
    of a source instance whose name ends in ["_db_id"] has the same value in
    the target instance paired with it, at every such position; no
    non-identifier field of any object has changed, and the objects that
    are not targets are as they were. *)
Theorem copy_db_ids_copies_ids py_lt (m : gmap loc loc) (h : heap)
    (source target : val) (path : list key) :
  (forall h1 h2 x y, only_ids_changed h1 h2 -> py_lt h2 x y = py_lt h1 x y) ->
  isomorphic py_lt m h (11 - length path) source target ->
  exists h',
    copy_db_ids py_lt h source target path = (Returned, h')
    /\ corresponds py_lt m (ids_copied h h') h (11 - length path) source target
    /\ only_ids_changed h h'
    /\ (forall l, m !! l = None -> h' !! l = h !! l).
Proof.
  intros Hlt Hiso.
  destruct (copy_db_ids_ok py_lt m h Hlt (11 - length path) h source target path
              eq_refl (evolved_refl m h) Hiso)
    as (h' & Hrun & [Hids Hout] & _ & Hc).
  by exists h'.
Qed.

Lemma corresponds_leaf py_lt m P h d s t :
  leaf_pair h s t -> corresponds py_lt m P h d s t.
Proof. intros H. destruct d; [done|by left]. Qed.

Lemma corresponds_inst py_lt m (P : loc -> loc -> Prop) h d ls lt c ds dt :
  h !! ls = Some (OInst c ds) -> h !! lt = Some (OInst c dt) ->
  class_is_base c = true -> NoDup ds.*1 ->
  m !! lt = Some ls -> m !! ls = None -> P lt ls ->
  (forall attr v, dict_get ds attr = Some v ->
     is_db_id attr = false -> is_skipped attr = false ->
     exists tv, dict_get dt attr = Some tv /\ corresponds py_lt m P h d v tv) ->
  corresponds py_lt m P h (S d) (VRef ls) (VRef lt).
Proof.
  intros. right; left. exists ls, lt, c, ds, dt. by repeat (split; [done|]).
Qed.

Lemma corresponds_sorted py_lt m (P : loc -> loc -> Prop) h d ls lt k x0 xs ys sx sy :
  h !! ls = Some (OColl k (x0 :: xs)) -> h !! lt = Some (OColl k ys) ->
  is_list_or_set k = true -> length (x0 :: xs) = length ys ->
  is_type x0 = false -> is_base h x0 && negb (is_sortable h x0) = false ->
  sorted py_lt h (x0 :: xs) = Some sx -> sorted py_lt h ys = Some sy ->
  Forall2 (corresponds py_lt m P h d) sx sy ->
  corresponds py_lt m P h (S d) (VRef ls) (VRef lt).
Proof.
  intros. right; right; left. exists ls, lt, k, (x0 :: xs), ys.
  repeat (split; [done|]). right. repeat (split; [done|]).
  exists sx, sy. by repeat (split; [done|]).
Qed.

Lemma getattr_only_ids h h' v a :
  only_ids_changed h h' -> is_db_id a = false -> getattr h' v a = getattr h v a.
Proof.
  intros H Ha. destruct v as [| | | |l]; try done. simpl.
  specialize (H l). destruct (h !! l) as [[c d| |]|].
  - destruct H as (d' & -> & F). by rewrite (F a Ha).
  - by rewrite H.
  - by rewrite H.
  - by rewrite H.
Qed.

(** [lt_by_name] reads the class and the [name] of an instance, no
    identifier field. *)
Lemma lt_by_name_ids h h' x y :
  only_ids_changed h h' -> lt_by_name h' x y = lt_by_name h x y.
Proof.
  intros H. destruct x, y; try done. unfold lt_by_name.
  rewrite !(is_sortable_only_ids _ _ _ H).
  by rewrite !(getattr_only_ids _ _ _ _ H).
Qed.

Lemma experiment_arm_isomorphic d ls lt name id :
  experiment_store !! ls = Some (OInst Arm [("name", VStr name); ("_db_id", id)]) ->
  experiment_store !! lt = Some (OInst Arm [("name", VStr name); ("_db_id", VNone)]) ->
  experiment_pairing !! lt = Some ls -> experiment_pairing !! ls = None ->
  isomorphic lt_by_name experiment_pairing experiment_store (S d) (VRef ls) (VRef lt).
Proof.
  intros Es Et Hm Hms. eapply corresponds_inst; try done.
  - apply (bool_decide_unpack _). by vm_compute.
  - intros attr v Hget Hid Hsk. simpl in Hget.
    destruct (decide (attr = "name")) as [->|].
    + injection Hget as <-. exists (VStr name).
      split; [by simpl|]. apply corresponds_leaf. by exists TStr.
    + destruct (decide (attr = "_db_id")) as [->|]; [|done]. discriminate Hid.
Qed.

Lemma experiment_isomorphic :
  isomorphic lt_by_name experiment_pairing experiment_store 11 (VRef 0) (VRef 10).
Proof.
  eapply corresponds_inst; try done.
  - apply (bool_decide_unpack _). by vm_compute.
  - intros attr v Hget Hid Hsk. simpl in Hget.
    destruct (decide (attr = "_db_id")) as [->|]; [discriminate Hid|].
    destruct (decide (attr = "title")) as [->|].
    { injection Hget as <-. exists (VStr "t").
      split; [by vm_compute|]. apply corresponds_leaf. by exists TStr. }
    destruct (decide (attr = "arms")) as [->|]; [|done].
    injection Hget as <-. exists (VRef 11). split; [by vm_compute|].
    eapply (corresponds_sorted _ _ _ _ _ 1 11 CList (VRef 2) [VRef 3]
              [VRef 12; VRef 13] [VRef 3; VRef 2] [VRef 12; VRef 13]);
      [by vm_compute..|].
    constructor; [|constructor; [|constructor]].
    + by apply (experiment_arm_isomorphic _ 3 12 "a" (VInt 2)).
    + by apply (experiment_arm_isomorphic _ 2 13 "b" (VInt 1)).
Qed.

Lemma copy_db_ids_copies_ids_witness :
  exists h',
    copy_db_ids lt_by_name experiment_store (VRef 0) (VRef 10) [] = (Returned, h')
    /\ corresponds lt_by_name experiment_pairing (ids_copied experiment_store h')
         experiment_store 11 (VRef 0) (VRef 10)
    /\ only_ids_changed experiment_store h'
    /\ (forall l, experiment_pairing !! l = None -> h' !! l = experiment_store !! l).
Proof.
  exact (copy_db_ids_copies_ids lt_by_name experiment_pairing experiment_store
           (VRef 0) (VRef 10) [] lt_by_name_ids experiment_isomorphic).
Defined.

(** The example of the specification with a nested object: after the call
    the three target instances of [experiment_store] have the identifiers
    of their sources. *)
Example copy_db_ids_experiment :
  let h' := snd (copy_db_ids lt_by_name experiment_store (VRef 0) (VRef 10) []) in
  fst (copy_db_ids lt_by_name experiment_store (VRef 0) (VRef 10) []) = Returned
  /\ getattr h' (VRef 10) "_db_id" = inr (VInt 10)
  /\ getattr h' (VRef 12) "_db_id" = inr (VInt 2)
  /\ getattr h' (VRef 13) "_db_id" = inr (VInt 1)
  /\ getattr h' (VRef 10) "title" = inr (VStr "t").
Proof. repeat split; by vm_compute. Qed.

(** ** Alignment by sorting: the identifiers *)

Lemma corresponds_instance py_lt m (P : loc -> loc -> Prop) h d ls lt c ds :
  corresponds py_lt m P h d (VRef ls) (VRef lt) ->
  h !! ls = Some (OInst c ds) -> class_is_base c = true -> P lt ls.
Proof.
  intros H Es Hb.
  assert (~ leaf_pair h (VRef ls) (VRef lt)) as Hnl.
  { intros (ty & Hs & _ & Hl). simpl in Hs. rewrite Es in Hs.
    injection Hs as <-. simpl in Hl. by rewrite Hb in Hl. }
  destruct d as [|d]; simpl in H; [by apply Hnl in H|].
  destruct H as [H|[H|[H|H]]]; [by apply Hnl in H| | |].
  - destruct H as (ls0 & lt0 & c0 & ds0 & dt0 & [= <-] & [= <-] & H).
    by destruct H as (_ & _ & _ & _ & _ & _ & HP & _).
  - destruct H as (ls0 & lt0 & k & xs & ys & [= <-] & _ & E & _). congruence.
  - destruct H as (ls0 & lt0 & its & tits & [= <-] & _ & E & _). congruence.
Qed.

Lemma corresponds_items py_lt m (P : loc -> loc -> Prop) h d ls lt k xs ys sx sy :
  corresponds py_lt m P h d (VRef ls) (VRef lt) ->
  h !! ls = Some (OColl k xs) -> h !! lt = Some (OColl k ys) ->
  is_list_or_set k = true ->
  Forall (fun x => is_type x = false) xs ->
  sorted py_lt h xs = Some sx -> sorted py_lt h ys = Some sy ->
  exists d', d = S d' /\ Forall2 (corresponds py_lt m P h d') sx sy.
Proof.
  intros H Es Et Hk Hty Ex Ey.
  assert (~ leaf_pair h (VRef ls) (VRef lt)) as Hnl.
  { intros (ty & Hs & _ & Hl). simpl in Hs. rewrite Es in Hs.
    injection Hs as <-. simpl in Hl. by rewrite Hk in Hl. }
  destruct d as [|d]; simpl in H; [by apply Hnl in H|].
  exists d. split; [done|].
  destruct H as [H|[H|[H|H]]]; [by apply Hnl in H| | |].
  - destruct H as (ls0 & lt0 & c0 & ds0 & dt0 & [= <-] & _ & E & _). congruence.
  - destruct H as (ls0 & lt0 & k0 & xs0 & ys0 & [= <-] & [= <-] & Es0 & Et0 & H).
    rewrite Es in Es0. injection Es0 as <- <-.
    rewrite Et in Et0. injection Et0 as <-.
    destruct H as (_ & Hlen & H). destruct xs as [|x0 xs].
    + destruct ys; [|done]. vm_compute in Ex, Ey.
      injection Ex as <-. injection Ey as <-. constructor.
    + apply Forall_cons in Hty as [Hx0 _].
      destruct H as [H|(_ & _ & sx0 & sy0 & Ex0 & Ey0 & HF)]; [congruence|].
      rewrite Ex in Ex0. injection Ex0 as <-.
      rewrite Ey in Ey0. by injection Ey0 as <-.
  - destruct H as (ls0 & lt0 & its & tits & [= <-] & _ & E & _). congruence.
Qed.

(** C4, as stated, fails when two different items compare equal: [sorted]
    is stable, so such items keep the order they came in.  The two source
    arms of [ties_store] have the same name, and so have the two target
    arms: every comparison answers, none says smaller.  With the source
    list in one order the first target arm receives the id 1, with the
    same items in the other order it receives the id 2; both calls return
    normally. *)
Lemma copy_db_ids_order_depends_on_ties :
  ties_store !! 0 = Some (OColl CList [VRef 1; VRef 2])
  /\ ties_store !! 6 = Some (OColl CList [VRef 2; VRef 1])
  /\ ties_store !! 3 = Some (OColl CList [VRef 4; VRef 5])
  /\ Forall (has_order ties_store) [VRef 1; VRef 2; VRef 4; VRef 5]
  /\ lt_by_name ties_store (VRef 1) (VRef 2) = Some false
  /\ lt_by_name ties_store (VRef 2) (VRef 1) = Some false
  /\ lt_by_name ties_store (VRef 4) (VRef 5) = Some false
  /\ lt_by_name ties_store (VRef 5) (VRef 4) = Some false
  /\ fst (copy_db_ids lt_by_name ties_store (VRef 0) (VRef 3) []) = Returned
  /\ fst (copy_db_ids lt_by_name ties_store (VRef 6) (VRef 3) []) = Returned
  /\ getattr (snd (copy_db_ids lt_by_name ties_store (VRef 0) (VRef 3) []))
       (VRef 4) "_db_id" = inr (VInt 1)
  /\ getattr (snd (copy_db_ids lt_by_name ties_store (VRef 6) (VRef 3) []))
       (VRef 4) "_db_id" = inr (VInt 2).
Proof.
  do 3 (split; [by vm_compute|]).
  split; [repeat constructor; by vm_compute|].
  repeat split; by vm_compute.
Qed.

(** C4 (amended): take two lists or sets of the same length whose items
    the code agrees to sort and on which [<] is a strict total order, so
    that no two different items compare equal.  The call gives the same
    result, the store it leaves included, whatever the order the items had
    in either collection: both sides are sorted, and the sorted sequences
    are the same for every order of the items.  When moreover the two
    collections are graphs of the same shape as in C1 (every composite
    position within the depth guard, each target instance paired with one
    source instance that is not itself a target) and the order does not
    look at identifier fields, the call returns normally, and afterwards
    every target item has, in each field whose name ends in ["_db_id"], the
    value of the [Base] instance at its place in the sorted source: the id
    of its sorted-order counterpart, not of the item at its original
    place. *)
Theorem copy_db_ids_order_independent py_lt (m : gmap loc loc) (h : heap)
    (ls lt ls' lt' : loc) (k k' : coll_kind) (xs ys xs' ys' : list val)
    (p : list key) :
  h !! ls = Some (OColl k xs) ->
  h !! lt = Some (OColl k ys) ->
  h !! ls' = Some (OColl k' xs') ->
  h !! lt' = Some (OColl k' ys') ->
  is_list_or_set k = true ->
  is_list_or_set k' = true ->
  length xs = length ys ->
  mutually_orderable py_lt h xs ->
  mutually_orderable py_lt h ys ->
  xs' ≡ₚ xs ->
  ys' ≡ₚ ys ->
  copy_db_ids py_lt h (VRef ls') (VRef lt') p
  = copy_db_ids py_lt h (VRef ls) (VRef lt) p
  /\ exists sx sy,
       sorted py_lt h xs = Some sx /\ sorted py_lt h ys = Some sy
       /\ sorted py_lt h xs' = Some sx /\ sorted py_lt h ys' = Some sy
       /\ StronglySorted (py_le py_lt h) sx /\ sx ≡ₚ xs
       /\ StronglySorted (py_le py_lt h) sy /\ sy ≡ₚ ys
       /\ ((forall h1 h2 x y,
              only_ids_changed h1 h2 -> py_lt h2 x y = py_lt h1 x y) ->
           isomorphic py_lt m h (11 - length p) (VRef ls) (VRef lt) ->
           exists h',
             copy_db_ids py_lt h (VRef ls) (VRef lt) p = (Returned, h')
             /\ forall i si ti c ds,
                  sx !! i = Some (VRef si) -> sy !! i = Some (VRef ti) ->
                  h !! si = Some (OInst c ds) -> class_is_base c = true ->
                  ids_copied h h' ti si).
Proof.
  intros Hs Ht Hs' Ht' Hk Hk' Hlen Hx Hy Px Py.
  assert (forall l1 l2 k0 l1s l2s,
    h !! l1 = Some (OColl k0 l1s) -> h !! l2 = Some (OColl k0 l2s) ->
    is_list_or_set k0 = true ->
    copy_db_ids py_lt h (VRef l1) (VRef l2) p
    = if 10 <? length p then (Returned, h)
      else copy_seq py_lt (copy_db_ids py_lt) h l1s l2s p) as Hunf.
  { intros l1 l2 k0 l1s l2s E1 E2 Hk0.
    rewrite copy_db_ids_unfold. unfold copy_db_ids_body.
    simpl type_of. simpl deref. simpl py_list. rewrite E1, E2, Hk0.
    destruct (10 <? length p); [done|].
    by destruct (decide (TColl k0 <> TColl k0)). }
  split.
  - rewrite (Hunf _ _ _ _ _ Hs Ht Hk), (Hunf _ _ _ _ _ Hs' Ht' Hk').
    destruct (10 <? length p); [done|]. by apply copy_seq_permutation.
  - destruct (sorted_total py_lt h xs (proj2 Hx)) as (sx & Ex & Hsx & Psx).
    destruct (sorted_total py_lt h ys (proj2 Hy)) as (sy & Ey & Hsy & Psy).
    exists sx, sy. do 2 (split; [done|]).
    split; [by rewrite (sorted_permutation py_lt h xs xs' (proj2 Hx) Px)|].
    split; [by rewrite (sorted_permutation py_lt h ys ys' (proj2 Hy) Py)|].
    do 4 (split; [done|]). intros Hlt Hiso.
    destruct (copy_db_ids_ok py_lt m h Hlt (11 - length p) h (VRef ls) (VRef lt)
                p eq_refl (evolved_refl m h) Hiso)
      as (h' & Hrun & _ & _ & Hc).
    exists h'. split; [done|]. intros i si ti c ds Hsi Hti Esi Hb.
    assert (Forall (fun x => is_type x = false) xs) as Hty.
    { eapply Forall_impl; [apply Hx|]. by intros x [? _]. }
    destruct (corresponds_items _ _ _ _ _ _ _ _ _ _ _ _ Hc Hs Ht Hk Hty Ex Ey)
      as (d' & _ & HF).
    eapply corresponds_instance; [|done..].
    by eapply Forall2_lookup_lr.
Qed.

Ltac in_list H :=
  repeat (apply elem_of_cons in H as [->|H]); try (by apply elem_of_nil in H).

Lemma arms_orderable l1 l2 :
  (l1 = 1 /\ l2 = 2) \/ (l1 = 4 /\ l2 = 5) ->
  mutually_orderable lt_by_name arms_store [VRef l1; VRef l2].
Proof.
  intros Hl. split.
  - destruct Hl as [[-> ->]|[-> ->]]; repeat constructor; by vm_compute.
  - split; [|split; [|split]].
    + intros x y Hx Hy. in_list Hx; in_list Hy;
        destruct Hl as [[-> ->]|[-> ->]]; vm_compute; eauto.
    + intros x Hx. in_list Hx; destruct Hl as [[-> ->]|[-> ->]]; by vm_compute.
    + intros x y z Hx Hy Hz. in_list Hx; in_list Hy; in_list Hz;
        destruct Hl as [[-> ->]|[-> ->]]; by vm_compute.
    + intros x y Hx Hy Hne. in_list Hx; in_list Hy; try done;
        destruct Hl as [[-> ->]|[-> ->]]; vm_compute; auto.
Qed.

Lemma arm_isomorphic m h d ls lt name id :
  h !! ls = Some (OInst Arm [("name", VStr name); ("_db_id", id)]) ->
  h !! lt = Some (OInst Arm [("name", VStr name); ("_db_id", VNone)]) ->
  m !! lt = Some ls -> m !! ls = None ->
  isomorphic lt_by_name m h (S d) (VRef ls) (VRef lt).
Proof.
  intros Es Et Hm Hms. eapply corresponds_inst; try done.
  - apply (bool_decide_unpack _). by vm_compute.
  - intros attr v Hget Hid Hsk. simpl in Hget.
    destruct (decide (attr = "name")) as [->|].
    + injection Hget as <-. exists (VStr name).
      split; [by simpl|]. apply corresponds_leaf. by exists TStr.
    + destruct (decide (attr = "_db_id")) as [->|]; [|done]. discriminate Hid.
Qed.

Lemma arms_isomorphic :
  isomorphic lt_by_name arms_pairing arms_store 11 (VRef 0) (VRef 3).
Proof.
  eapply (corresponds_sorted _ _ _ _ _ 0 3 CList (VRef 1) [VRef 2]
            [VRef 4; VRef 5] [VRef 2; VRef 1] [VRef 4; VRef 5]);
    [by vm_compute..|].
  constructor; [|constructor; [|constructor]].
  - by apply (arm_isomorphic _ _ _ 2 4 "a" (VInt 2)).
  - by apply (arm_isomorphic _ _ _ 1 5 "b" (VInt 1)).
Qed.

Lemma copy_db_ids_order_independent_witness :
  copy_db_ids lt_by_name arms_store (VRef 6) (VRef 7) []
  = copy_db_ids lt_by_name arms_store (VRef 0) (VRef 3) []
  /\ exists h',
       copy_db_ids lt_by_name arms_store (VRef 0) (VRef 3) [] = (Returned, h')
       /\ ids_copied arms_store h' 4 2 /\ ids_copied arms_store h' 5 1.
Proof.
  destruct (copy_db_ids_order_independent lt_by_name arms_pairing arms_store
              0 3 6 7 CList CSet [VRef 1; VRef 2] [VRef 4; VRef 5]
              [VRef 2; VRef 1] [VRef 5; VRef 4] []
              eq_refl eq_refl eq_refl eq_refl eq_refl eq_refl eq_refl
              (arms_orderable 1 2 (or_introl (conj eq_refl eq_refl)))
              (arms_orderable 4 5 (or_intror (conj eq_refl eq_refl)))
              (Permutation_swap _ _ _) (Permutation_swap _ _ _))
    as (Heq & sx & sy & Ex & Ey & _ & _ & _ & _ & _ & _ & Hids).
  split; [exact Heq|].
  destruct (Hids lt_by_name_ids arms_isomorphic) as (h' & Hrun & Hi).
  exists h'. split; [exact Hrun|].
  vm_compute in Ex, Ey. injection Ex as <-. injection Ey as <-.
  split.
  - apply (Hi 0 2 4 Arm [("name", VStr "a"); ("_db_id", VInt 2)]);
      by vm_compute.
  - apply (Hi 1 1 5 Arm [("name", VStr "b"); ("_db_id", VInt 1)]);
      by vm_compute.
Defined.

(** ** The examples of the specification *)

Example copy_db_ids_nested :
  copy_db_ids lt_by_name nested_store (VRef 0) (VRef 2) []
  = (Returned,
     list_to_map
       [ (0, OInst Obj [("_db_id", VStr "A"); ("child", VRef 1)]);
         (1, OInst Obj [("_db_id", VStr "B")]);
         (2, OInst Obj [("_db_id", VStr "A"); ("child", VRef 3)]);
         (3, OInst Obj [("_db_id", VStr "B")]) ]).
Proof. by vm_compute. Qed.

Example copy_db_ids_missing_key_a :
  copy_db_ids lt_by_name missing_key_store (VRef 0) (VRef 1) []
  = (Raised (SQADecodeError [] (KeyOnlyInSource (KStr "a"))), missing_key_store).
Proof. by vm_compute. Qed.

(** On a cyclic structure the guard ends the recursion: the call returns,
    and a call at depth 11 copies nothing. *)
Example copy_db_ids_cyclic :
  fst (copy_db_ids lt_by_name cyclic_store (VRef 0) (VRef 1) []) = Returned
  /\ copy_db_ids lt_by_name cyclic_store (VRef 0) (VRef 1) deep_path
     = (Returned, cyclic_store).
Proof. split; by vm_compute. Qed.

Example is_db_id_examples :
  is_db_id "_db_id" = true /\ is_db_id "_generator_run_db_id" = true
  /\ is_db_id "db_id" = false /\ is_db_id "_db_id_" = false.
Proof. repeat split. Qed.

Example is_skipped_examples :
  is_skipped "_experiment" = true /\ is_skipped "__dict" = true
  /\ is_skipped "_name" = false /\ is_skipped "experiment" = false.
Proof. repeat split. Qed.

Example is_foreign_key_field_examples :
  is_foreign_key_field "experiment_id" = true
  /\ is_foreign_key_field "_id" = false
  /\ is_foreign_key_field "db_ids" = false.
Proof. repeat split. Qed.

(** ** Field names *)

Lemma string_length_append (p s : string) :
  String.length (String.append p s) = String.length p + String.length s.
Proof. induction p as [|c p IH]; simpl; [done|]. by rewrite IH. Qed.

Lemma substring_all (s : string) : substring 0 (String.length s) s = s.
Proof. induction s as [|c s IH]; simpl; [done|]. by rewrite IH. Qed.

Lemma substring_append_r (p s : string) :
  substring (String.length p) (String.length s) (String.append p s) = s.
Proof. induction p as [|c p IH]; simpl; [apply substring_all|done]. Qed.

Lemma substring_split (s : string) (n : nat) :
  n <= String.length s ->
  s = String.append (substring 0 n s) (substring n (String.length s - n) s).
Proof.
  revert n. induction s as [|c s IH]; intros n Hn; simpl in *.
  - by destruct n.
  - destruct n as [|n]; simpl.
    + by rewrite substring_all.
    + change (String c s = String c (String.append (substring 0 n s)
                 (substring n (String.length s - n) s))).
      f_equal. apply IH. lia.
Qed.

(** [s.endswith(suffix)] holds exactly of the strings that are [suffix] with
    something, possibly nothing, in front. *)
Lemma endswith_spec (suffix s : string) :
  endswith suffix s = true <-> exists p, s = String.append p suffix.
Proof.
  unfold endswith. split.
  - intros [Hle Heq]%andb_prop. apply Nat.leb_le in Hle. apply String.eqb_eq in Heq.
    exists (substring 0 (String.length s - String.length suffix) s).
    pose proof (substring_split s (String.length s - String.length suffix)
                  ltac:(lia)) as Hs.
    replace (String.length s - (String.length s - String.length suffix))
      with (String.length suffix) in Hs by lia.
    by rewrite Heq in Hs.
  - intros [p ->]. rewrite string_length_append. apply andb_true_intro. split.
    + apply Nat.leb_le. lia.
    + apply String.eqb_eq.
      replace (String.length p + String.length suffix - String.length suffix)
        with (String.length p) by lia.
      apply substring_append_r.
Qed.

(** X1: [is_foreign_key_field] holds exactly of the names that end in ["_id"]
    and have something in front of it: ["_id"] itself is no foreign key
    field. *)
Theorem is_foreign_key_field_spec (field : string) :
  is_foreign_key_field field = true
  <-> exists p, p <> EmptyString /\ field = String.append p "_id".
Proof.
  unfold is_foreign_key_field. split.
  - intros [Hlt Heq]%andb_prop. apply Nat.ltb_lt in Hlt.
    destruct (proj1 (endswith_spec "_id" field)) as [p ->].
    { unfold endswith. apply andb_true_intro. split; [|done].
      apply Nat.leb_le. simpl. lia. }
    exists p. split; [|done]. intros ->. simpl in Hlt. lia.
  - intros (p & Hp & ->). rewrite string_length_append. apply andb_true_intro. split.
    + apply Nat.ltb_lt. destruct p; [done|simpl; lia].
    + apply String.eqb_eq.
      replace (String.length p + String.length "_id" - 3) with (String.length p)
        by (simpl; lia).
      apply (substring_append_r p "_id").
Qed.

(** The attributes [copy_db_ids] copies are those whose name is ["_db_id"]
    with something, possibly nothing, in front. *)
Lemma is_db_id_spec (attr : string) :
  is_db_id attr = true <-> exists p, attr = String.append p "_db_id".
Proof. apply endswith_spec. Qed.

Lemma string_append_assoc (a b c : string) :
  String.append (String.append a b) c = String.append a (String.append b c).
Proof.
  induction a as [|x a IH]; [done|].
  change (String x (String.append (String.append a b) c)
          = String x (String.append a (String.append b c))).
  by f_equal.
Qed.

(** X2: Every identifier field is a foreign key field, ["_db_id"] included. *)
Theorem is_db_id_foreign_key (attr : string) :
  is_db_id attr = true -> is_foreign_key_field attr = true.
Proof.
  intros [p ->]%is_db_id_spec. apply is_foreign_key_field_spec.
  exists (String.append p "_db"). split.
  - by destruct p.
  - symmetry. apply (string_append_assoc p "_db" "_id").
Qed.

Lemma is_db_id_foreign_key_witness :
  is_db_id "_generator_run_db_id" = true
  /\ is_foreign_key_field "_generator_run_db_id" = true.
Proof. split; [reflexivity|]. by apply is_db_id_foreign_key. Defined.

(** ** The exceptions a call can raise *)

Section Outcomes.
Variable py_lt : heap -> val -> val -> option bool.
Variable rec : rec_call.
Variable Q : outcome -> Prop.
Variable path : list key.

(** The recursive calls are acceptable and change identifier fields only. *)
Hypothesis Hrec : forall h s' t' x,
  Q (fst (rec h s' t' (path ++ [x])))
  /\ only_ids_changed h (snd (rec h s' t' (path ++ [x]))).
(** So is what the body answers by itself. *)
Hypothesis HQ : forall o, own_outcome path o -> Q o.

Lemma attrs_loop_outcome todo i size0 h s lt :
  (exists c d, h !! lt = Some (OInst c d)) ->
  Q (fst (attrs_loop rec todo i size0 h s (VRef lt) path)).
Proof.
  revert i h. induction todo as [|todo IH]; intros i h (c & d & Et); simpl.
  - destruct (instance_dict h s); [|by apply HQ].
    destruct (negb _); by apply HQ.
  - destruct (instance_dict h s) as [ds|]; [|by apply HQ].
    destruct (negb _); [by apply HQ|].
    destruct (ds !! i) as [[attr v]|]; [|by apply HQ].
    destruct (is_db_id attr).
    { rewrite Et. apply IH. exists c, (dict_set d attr v). apply lookup_insert_eq. }
    destruct (is_skipped attr); [apply IH; eauto|].
    rewrite Et. destruct (dict_get d attr) as [tv|]; [|by apply HQ].
    destruct (Hrec h v tv (KStr attr)) as [HQ' Hids].
    destruct (rec h v tv _) as [o h'] eqn:Er. simpl in *.
    destruct o; try done. apply IH.
    specialize (Hids lt). rewrite Et in Hids.
    destruct Hids as (d' & Et' & _). eauto.
Qed.

Lemma seq_loop_outcome xs index h ys :
  index + length xs <= length ys ->
  Q (fst (seq_loop rec index h xs ys path)).
Proof.
  revert index h. induction xs as [|x xs IH]; intros index h Hlen; simpl.
  - by apply HQ.
  - simpl in Hlen. destruct (lookup_lt_is_Some_2 ys index) as [y Ey]; [lia|].
    rewrite Ey. destruct (Hrec h x y (str_of_index index)) as [HQ' _].
    destruct (rec h x y _) as [o h'] eqn:Er. simpl in *.
    destruct o; try done. apply IH. lia.
Qed.

Lemma dict_loop_outcome items h lt titems :
  h !! lt = Some (ODict titems) ->
  Q (fst (dict_loop rec h items (VRef lt) path)).
Proof.
  revert h. induction items as [|[k v] items IH]; intros h Et; simpl.
  - by apply HQ.
  - rewrite Et. destruct (dict_get titems k) as [tv|] eqn:Ek.
    + rewrite bool_decide_eq_true_2 by eauto.
      destruct (Hrec h v tv k) as [HQ' Hids].
      destruct (rec h v tv _) as [o h'] eqn:Er. simpl in *.
      destruct o; try done. apply IH. by eapply only_ids_changed_dict.
    + rewrite bool_decide_eq_false_2 by (by intros [? ?]). by apply HQ.
Qed.

Lemma copy_db_ids_body_outcome h s t :
  Q (fst (copy_db_ids_body py_lt rec h s t path)).
Proof.
  unfold copy_db_ids_body. destruct (10 <? length path); [by apply HQ|].
  destruct (type_of h s) as [ty_s|] eqn:Es; [|by apply HQ].
  destruct (type_of h t) as [ty_t|] eqn:Et; [|by apply HQ].
  destruct (decide (ty_s <> ty_t)) as [|Heq]; [by apply HQ|].
  apply dec_stable in Heq. subst ty_t.
  destruct s as [| | | |ls]; try (by apply HQ). simpl in Es |- *.
  destruct (h !! ls) as [[c d|k xs|items]|] eqn:Els; simplify_eq;
    (destruct t as [| | | |lt]; simplify_eq/=);
    (destruct (h !! lt) as [[c' d'|k' ys|titems]|] eqn:Elt; simplify_eq).
  - destruct (class_is_base c); [|by apply HQ].
    apply attrs_loop_outcome. eauto.
  - destruct (is_list_or_set k); [|by apply HQ].
    unfold py_list. rewrite ?Elt. unfold copy_seq.
    destruct (length xs =? length ys) eqn:El; [|by apply HQ]. simpl negb. cbv iota.
    apply Nat.eqb_eq in El.
    destruct xs as [|x0 xs]; [by apply HQ|].
    destruct (is_type x0); [by apply HQ|].
    destruct (is_base h x0 && negb (is_sortable h x0)).
    { destruct (type_of h x0); by apply HQ. }
    destruct (sorted py_lt h (x0 :: xs)) as [sx|] eqn:Esx; [|by apply HQ].
    destruct (sorted py_lt h ys) as [sy|] eqn:Esy; [|by apply HQ].
    apply seq_loop_outcome.
    pose proof (sorted_length _ _ _ _ Esx) as Lx.
    pose proof (sorted_length _ _ _ _ Esy) as Ly. simpl in *. lia.
  - by eapply dict_loop_outcome.
Qed.
End Outcomes.

(** X3: The indexing and conversion steps of a call never fail:
    [target[index]] raises no [IndexError], since the two sorted lists have
    the same length; [target[k]] raises no [KeyError], since it is read
    after [k in target]; [list(target)], [k in target] and [target[k]] are
    asked of a target of the type of [source], so they raise no
    [TypeError] for want of the operation.  What a call can raise is
    [SQADecodeError], the [AttributeError] of [getattr(target, attr)],
    whatever [<] raises inside [sorted] (a [TypeError] when the items are
    dicts; [CompareError] here) and the error of the dictionary iterator;
    the model leaves out what [str(source)] and [str(target)] raise while
    the message prefix is built.  The budget of the model is never used
    up. *)
Theorem copy_db_ids_possible_outcome py_lt (h : heap) (source target : val)
    (path : list key) :
  possible_outcome (fst (copy_db_ids py_lt h source target path)).
Proof.
  revert h source target path. apply copy_db_ids_induction. intros h s t p IH.
  rewrite copy_db_ids_unfold.
  destruct (decide (10 < length p)) as [Hd|Hd].
  { by rewrite copy_db_ids_body_deep. }
  apply copy_db_ids_body_outcome.
  - intros h' s' t' x. split; [apply IH; lia|apply copy_db_ids_only_ids].
  - intros o Ho. destruct o as [|[]| |]; done.
Qed.

(** ** Where an error comes from *)

(** The primitive operations raise no [SQADecodeError]. *)
Lemma fail_decode_error f h q why h' :
  fail f h = (Raised (SQADecodeError q why), h') ->
  f = FRaise (SQADecodeError q why).
Proof. destruct f as [|e]; simpl; [done|]. by intros [= -> _]. Qed.

Lemma setattr_decode_error h t a v q why :
  setattr h t a v <> inl (FRaise (SQADecodeError q why)).
Proof. unfold setattr. by repeat case_match. Qed.

Lemma getattr_decode_error h t a q why :
  getattr h t a <> inl (FRaise (SQADecodeError q why)).
Proof. unfold getattr. by repeat case_match. Qed.

Lemma py_list_decode_error h t q why :
  py_list h t <> inl (FRaise (SQADecodeError q why)).
Proof. unfold py_list. by repeat case_match. Qed.

Lemma py_contains_decode_error h t k q why :
  py_contains h t k <> inl (FRaise (SQADecodeError q why)).
Proof. unfold py_contains. by repeat case_match. Qed.

Lemma py_getitem_decode_error h t k q why :
  py_getitem h t k <> inl (FRaise (SQADecodeError q why)).
Proof. unfold py_getitem. by repeat case_match. Qed.

Ltac primitive_fault H E :=
  apply fail_decode_error in H; rewrite H in E;
  first [ by apply setattr_decode_error in E
        | by apply getattr_decode_error in E
        | by apply py_list_decode_error in E
        | by apply py_contains_decode_error in E
        | by apply py_getitem_decode_error in E ].

Section Trace.
Variable py_lt : heap -> val -> val -> option bool.
Variable rec : rec_call.
Variables (q : list key) (why : mismatch) (h' : heap).

Lemma attrs_loop_check todo i size0 h s t p :
  attrs_loop rec todo i size0 h s t p = (Raised (SQADecodeError q why), h') ->
  attrs_loop rec 0 i size0 h s t p = (Returned, h).
Proof.
  destruct todo; simpl;
    destruct (instance_dict h s); try done; by destruct (negb _).
Qed.

(** The attribute loop raises no [SQADecodeError] of its own: the error is
    the answer of a recursive call, made after the earlier iterations have
    returned. *)
Lemma attrs_loop_trace todo i size0 h0 hc s t p :
  attrs_loop rec i 0 size0 h0 s t p = (Returned, hc) ->
  attrs_loop rec todo i size0 hc s t p = (Raised (SQADecodeError q why), h') ->
  exists j h1 d1 attr v tv,
    attrs_loop rec j 0 size0 h0 s t p = (Returned, h1)
    /\ instance_dict h1 s = Some d1 /\ d1 !! j = Some (attr, v)
    /\ is_db_id attr = false /\ is_skipped attr = false
    /\ getattr h1 t attr = inr tv
    /\ rec h1 v tv (p ++ [KStr attr]) = (Raised (SQADecodeError q why), h').
Proof.
  revert i hc. induction todo as [|todo IH]; intros i hc Hpre H.
  { apply attrs_loop_check in H as Hc. rewrite Hc in H. discriminate H. }
  pose proof H as H0. simpl in H.
  destruct (instance_dict hc s) as [d1|] eqn:Ed; [|done].
  destruct (negb (length d1 =? size0)) eqn:En; [done|].
  destruct (d1 !! i) as [[attr v]|] eqn:Ei; [|done].
  assert (i < size0) as Hi.
  { apply negb_false_iff, Nat.eqb_eq in En. rewrite <- En.
    by eapply lookup_lt_Some. }
  assert (forall h2,
    attrs_loop rec 1 i size0 hc s t p = attrs_loop rec 0 (S i) size0 h2 s t p ->
    attrs_loop rec todo (S i) size0 h2 s t p = (Raised (SQADecodeError q why), h') ->
    attrs_loop rec (S i) 0 size0 h0 s t p = (Returned, h2)) as Hnext.
  { intros h2 H1 H2. replace (S i) with (i + 1) at 1 by lia.
    rewrite attrs_loop_split by lia. rewrite Hpre, Nat.add_0_r, H1.
    by eapply attrs_loop_check. }
  destruct (is_db_id attr) eqn:Eid.
  { destruct (setattr hc t attr v) as [f|h2] eqn:Es; [primitive_fault H Es|].
    apply (IH (S i) h2); [|done]. apply Hnext; [|done].
    simpl. by rewrite Ed, En, Ei, Eid, Es. }
  destruct (is_skipped attr) eqn:Esk.
  { apply (IH (S i) hc); [|done]. apply Hnext; [|done].
    simpl. by rewrite Ed, En, Ei, Eid, Esk. }
  destruct (getattr hc t attr) as [f|tv] eqn:Eg; [primitive_fault H Eg|].
  destruct (rec hc v tv (p ++ [KStr attr])) as [o h2] eqn:Er.
  destruct o as [|e| |]; try discriminate H.
  - apply (IH (S i) h2); [|done]. apply Hnext; [|done].
    simpl. by rewrite Ed, En, Ei, Eid, Esk, Eg, Er.
  - exists i, hc, d1, attr, v, tv. by rewrite Er.
Qed.

(** Nor does the loop over the sorted items. *)
Lemma seq_loop_trace xs2 : forall xs1 h0 hc ys p,
  seq_loop rec 0 h0 xs1 ys p = (Returned, hc) ->
  seq_loop rec (length xs1) hc xs2 ys p = (Raised (SQADecodeError q why), h') ->
  exists i h1 x y,
    seq_loop rec 0 h0 (take i (xs1 ++ xs2)) ys p = (Returned, h1)
    /\ (xs1 ++ xs2) !! i = Some x /\ ys !! i = Some y
    /\ rec h1 x y (p ++ [str_of_index i]) = (Raised (SQADecodeError q why), h').
Proof.
  induction xs2 as [|x xs2 IH]; intros xs1 h0 hc ys p Hpre H; [done|].
  simpl in H. destruct (ys !! length xs1) as [y|] eqn:Ey; [|done].
  destruct (rec hc x y (p ++ [str_of_index (length xs1)])) as [o h2] eqn:Er.
  destruct o as [|e| |]; try discriminate H.
  - destruct (IH (xs1 ++ [x]) h0 h2 ys p) as (i & h1 & x' & y' & G).
    + rewrite seq_loop_split, Hpre. simpl.
      by rewrite Nat.add_0_r, Ey, Er.
    + rewrite length_app. simpl.
      by replace (length xs1 + 1) with (S (length xs1)) by lia.
    + rewrite <- app_assoc in G. by exists i, h1, x', y'.
  - exists (length xs1), hc, x, y.
    rewrite take_app_length, list_lookup_middle by done. by rewrite Er.
Qed.

(** The loop over a dictionary raises the error itself, with its own path,
    or passes on the answer of a recursive call. *)
Lemma dict_loop_trace post : forall pre h0 hc t p,
  dict_loop rec h0 pre t p = (Returned, hc) ->
  dict_loop rec hc post t p = (Raised (SQADecodeError q why), h') ->
  q = p
  \/ exists pre' k v post' h1 tv,
       pre ++ post = pre' ++ (k, v) :: post'
       /\ dict_loop rec h0 pre' t p = (Returned, h1)
       /\ py_contains h1 t k = inr true /\ py_getitem h1 t k = inr tv
       /\ rec h1 v tv (p ++ [k]) = (Raised (SQADecodeError q why), h').
Proof.
  induction post as [|[k v] post IH]; intros pre h0 hc t p Hpre H; [done|].
  simpl in H.
  destruct (py_contains hc t k) as [f|[]] eqn:Ec; [primitive_fault H Ec| |].
  - destruct (py_getitem hc t k) as [f|tv] eqn:Eg; [primitive_fault H Eg|].
    destruct (rec hc v tv (p ++ [k])) as [o h2] eqn:Er.
    destruct o as [|e| |]; try discriminate H.
    + destruct (IH (pre ++ [(k, v)]) h0 h2 t p) as [G|G]; [|done|by left|].
      * rewrite dict_loop_split, Hpre. simpl. by rewrite Ec, Eg, Er.
      * right. by rewrite <- app_assoc in G.
    + right. exists pre, k, v, post, hc, tv. by rewrite Er.
  - left. by injection H as <- _ _.
Qed.

(** A [SQADecodeError] that the body of a call answers has the path of the
    call, or is the answer of a recursive call the body makes. *)
Lemma copy_db_ids_body_trace h s t p :
  copy_db_ids_body py_lt rec h s t p = (Raised (SQADecodeError q why), h') ->
  q = p
  \/ exists h1 s1 t1 x,
       calls py_lt rec (Call h s t p) (Call h1 s1 t1 (p ++ [x]))
       /\ rec h1 s1 t1 (p ++ [x]) = (Raised (SQADecodeError q why), h').
Proof.
  unfold copy_db_ids_body.
  destruct (10 <? length p) eqn:Eg; [done|].
  apply Nat.ltb_ge in Eg.
  destruct (type_of h s) as [ty_s|] eqn:Es; [|done].
  destruct (type_of h t) as [ty_t|] eqn:Et; [|done].
  destruct (decide (ty_s <> ty_t)) as [|Heq].
  { intros [= <- _ _]. by left. }
  apply dec_stable in Heq. subst ty_t.
  destruct (deref h s) as [[c d|k xs|items]|] eqn:Ed; [| | |done];
    pose proof (deref_type_of _ _ _ Ed) as Ety;
    rewrite Es in Ety; injection Ety as ->.
  - destruct (class_is_base c) eqn:Ec; [|done]. intros H. right.
    destruct (attrs_loop_trace _ 0 _ h h _ _ _ (attrs_loop_check _ _ _ _ _ _ _ H) H)
      as (j & h1 & d1 & attr & v & tv & Hpre & Ed1 & Ej & Eid & Esk & Eget & Er).
    exists h1, v, tv, (KStr attr). split; [|done].
    by eapply calls_attr.
  - destruct (is_list_or_set k) eqn:Ek; [|done].
    destruct (py_list h t) as [f|ys] eqn:Ey; [intros H; primitive_fault H Ey|].
    unfold copy_seq.
    destruct (negb (length xs =? length ys)) eqn:El.
    { intros [= <- _ _]. by left. }
    apply negb_false_iff, Nat.eqb_eq in El.
    destruct xs as [|x0 xs]; [done|].
    destruct (is_type x0) eqn:Ex0; [done|].
    destruct (is_base h x0 && negb (is_sortable h x0)) eqn:Eb.
    { destruct (type_of h x0); [|done]. intros [= <- _ _]. by left. }
    destruct (sorted py_lt h (x0 :: xs)) as [sx|] eqn:Esx; [|done].
    destruct (sorted py_lt h ys) as [sy|] eqn:Esy; [|done].
    intros H. right.
    destruct (seq_loop_trace sx [] h h sy p eq_refl H)
      as (i & h1 & x & y & Hpre & Ex & Ey' & Er).
    exists h1, x, y, (str_of_index i). split; [|done].
    by eapply calls_item.
  - intros H.
    destruct (dict_loop_trace items [] h h t p eq_refl H)
      as [->|(pre & k & v & post & h1 & tv & Ei & Hpre & Ec & Eget & Er)];
      [by left|right].
    simpl in Ei. subst items. exists h1, v, tv, k. split; [|done]. by eapply calls_value.
Qed.
End Trace.

(** X4: The path of a [SQADecodeError] locates the mismatch: it is the path
    of a call the traversal recursed into, the one that raised the error
    by its own check; every recursive call adds the attribute name, the
    index or the key it follows to the path of the call that makes it, so
    the path of the error is the path of the first call followed by the
    names, indices and keys on the way to the mismatch.  It has at most 10
    items. *)
Theorem copy_db_ids_error_path py_lt (h h' : heap) (source target : val)
    (path q : list key) (why : mismatch) :
  copy_db_ids py_lt h source target path = (Raised (SQADecodeError q why), h') ->
  (exists r, q = path ++ r) /\ length q <= 10
  /\ exists c,
       recursed_into py_lt (Call h source target path) c
       /\ c_path c = q
       /\ run py_lt c = (Raised (SQADecodeError q why), h').
Proof.
  revert h source target path h' q why.
  apply (copy_db_ids_induction (fun h s t p => forall h' q why,
    copy_db_ids py_lt h s t p = (Raised (SQADecodeError q why), h') ->
    (exists r, q = p ++ r) /\ length q <= 10
    /\ exists c,
         recursed_into py_lt (Call h s t p) c
         /\ c_path c = q
         /\ run py_lt c = (Raised (SQADecodeError q why), h'))).
  intros h s t p IH h' q why Hrun.
  pose proof Hrun as Hbody. rewrite copy_db_ids_unfold in Hbody.
  destruct (decide (10 < length p)) as [Hd|Hd].
  { by rewrite copy_db_ids_body_deep in Hbody. }
  apply copy_db_ids_body_trace in Hbody
    as [->|(h1 & s1 & t1 & x & Hcall & Hrec)].
  - split; [exists []; by rewrite app_nil_r|]. split; [lia|].
    exists (Call h s t p). split; [apply rtc_refl|done].
  - destruct (IH ltac:(lia) h1 s1 t1 x h' q why Hrec)
      as ([r ->] & Hlen & c & Hc & Hq & Hr).
    split; [exists (x :: r); by rewrite <- app_assoc|]. split; [done|].
    exists c. split; [|done]. by eapply rtc_l.
Qed.

(** Every recursive call adds one item to the path: the name of the
    attribute, the index in the sorted lists or the key it follows. *)
Lemma calls_path py_lt rec c c' :
  calls py_lt rec c c' ->
  (exists attr, c_path c' = c_path c ++ [KStr attr]
                /\ getattr (c_heap c') (c_target c) attr = inr (c_target c'))
  \/ (exists i, c_path c' = c_path c ++ [str_of_index i])
  \/ (exists k, c_path c' = c_path c ++ [k]
                /\ py_getitem (c_heap c') (c_target c) k = inr (c_target c')).
Proof.
  intros []; simpl; [left|right; left|right; right]; eauto.
Qed.

Lemma copy_db_ids_error_path_witness :
  ((exists r, [KStr "arms"] = [] ++ r) /\ length [KStr "arms"] <= 10)
  /\ exists c,
       recursed_into lt_by_name (Call partial_store (VRef 0) (VRef 2) []) c
       /\ c_path c = [KStr "arms"].
Proof.
  destruct (copy_db_ids_error_path lt_by_name partial_store
           (<[2 := OInst Obj [("_db_id", VInt 7); ("arms", VRef 3)]]> partial_store)
           (VRef 0) (VRef 2) [] [KStr "arms"] DifferentLengths)
    as (Hr & Hlen & c & Hc & Hq & _); [by vm_compute|].
  split; [by split|]. by exists c.
Defined.

(** X5: The recursion is never more than [12 - len(path)] calls deep, on cyclic
    graphs as on others: every larger budget gives the result of
    [copy_db_ids], which is not the exhaustion of the budget. *)
Theorem copy_db_ids_recursion_bounded py_lt (n : nat) (h : heap)
    (source target : val) (path : list key) :
  11 - length path < n ->
  copy_db_ids_fuel py_lt n h source target path
  = copy_db_ids py_lt h source target path
  /\ fst (copy_db_ids_fuel py_lt n h source target path) <> OutOfFuel.
Proof.
  intros Hn. rewrite copy_db_ids_fuel_enough by done.
  split; [done|apply copy_db_ids_total].
Qed.

Lemma copy_db_ids_recursion_bounded_witness :
  copy_db_ids_fuel lt_by_name 3 cyclic_store (VRef 0) (VRef 1)
    (map KStr ["a"; "b"; "c"; "d"; "e"; "f"; "g"; "h"; "i"])
  = copy_db_ids lt_by_name cyclic_store (VRef 0) (VRef 1)
      (map KStr ["a"; "b"; "c"; "d"; "e"; "f"; "g"; "h"; "i"]).
Proof.
  apply (copy_db_ids_recursion_bounded lt_by_name 3 cyclic_store). simpl. lia.
Defined.

(** ** Collections: what is skipped and what [sorted] raises *)

Lemma copy_db_ids_seq_unfold py_lt h ls lt k xs ys p :
  h !! ls = Some (OColl k xs) -> h !! lt = Some (OColl k ys) ->
  is_list_or_set k = true -> length p <= 10 ->
  copy_db_ids py_lt h (VRef ls) (VRef lt) p
  = copy_seq py_lt (copy_db_ids py_lt) h xs ys p.
Proof.
  intros Es Et Hk Hp. rewrite copy_db_ids_unfold. unfold copy_db_ids_body.
  destruct (10 <? length p) eqn:E; [apply Nat.ltb_lt in E; lia|].
  simpl type_of. simpl deref. unfold py_list. rewrite Es, Et, Hk.
  by destruct (decide (TColl k <> TColl k)).
Qed.

(** X6: Two lists or sets of the same length are left alone, with everything
    below them, when [source] is empty or starts with a type: the later
    items are not looked at, whatever they are. *)
Theorem copy_db_ids_skips_types py_lt (h : heap) (ls lt : loc) (k : coll_kind)
    (xs ys : list val) (path : list key) :
  h !! ls = Some (OColl k xs) ->
  h !! lt = Some (OColl k ys) ->
  is_list_or_set k = true ->
  length xs = length ys ->
  (forall x0, head xs = Some x0 -> is_type x0 = true) ->
  copy_db_ids py_lt h (VRef ls) (VRef lt) path = (Returned, h).
Proof.
  intros Es Et Hk Hlen Hhead.
  destruct (decide (10 < length path)) as [Hd|Hd].
  { rewrite copy_db_ids_unfold. by apply copy_db_ids_body_deep. }
  rewrite (copy_db_ids_seq_unfold _ _ _ _ _ _ _ _ Es Et Hk) by lia.
  unfold copy_seq. rewrite Hlen, Nat.eqb_refl. simpl.
  destruct xs as [|x0 xs]; [done|]. by rewrite (Hhead x0).
Qed.

Lemma copy_db_ids_skips_types_witness :
  copy_db_ids lt_by_name types_store (VRef 0) (VRef 2) [] = (Returned, types_store)
  /\ getattr types_store (VRef 1) "_db_id" = inr (VInt 1)
  /\ getattr types_store (VRef 3) "_db_id" = inr VNone.
Proof.
  split; [|by vm_compute].
  apply (copy_db_ids_skips_types lt_by_name types_store 0 2 CList
           [VType "Arm"; VRef 1] [VType "Arm"; VRef 3] []); try reflexivity.
  by intros x0 [= <-].
Defined.

Lemma sorted_first_comparison py_lt h x0 x1 xs :
  py_lt h x1 x0 = None -> sorted py_lt h (x0 :: x1 :: xs) = None.
Proof.
  intros E. unfold sorted, sorted_from. simpl. rewrite E.
  apply sorted_from_none.
Qed.

(** X7: When [<] raises while one of the two collections is sorted, the call
    raises that error, not [SQADecodeError], and the store is as it was;
    [sorted] compares the second item with the first before anything else,
    so this is what a collection of two or more items without an order
    gives. *)
Theorem copy_db_ids_compare_error py_lt (h : heap) (ls lt : loc) (k : coll_kind)
    (x0 : val) (xs ys : list val) (path : list key) :
  h !! ls = Some (OColl k (x0 :: xs)) ->
  h !! lt = Some (OColl k ys) ->
  is_list_or_set k = true ->
  length path <= 10 ->
  length (x0 :: xs) = length ys ->
  is_type x0 = false ->
  is_base h x0 && negb (is_sortable h x0) = false ->
  sorted py_lt h (x0 :: xs) = None \/ sorted py_lt h ys = None ->
  copy_db_ids py_lt h (VRef ls) (VRef lt) path = (Raised CompareError, h)
  /\ (forall x1 xs', xs = x1 :: xs' -> py_lt h x1 x0 = None ->
        sorted py_lt h (x0 :: xs) = None).
Proof.
  intros Es Et Hk Hp Hlen Hty Hso Hsorted. split.
  - rewrite (copy_db_ids_seq_unfold _ _ _ _ _ _ _ _ Es Et Hk Hp).
    unfold copy_seq. rewrite Hlen, Nat.eqb_refl. simpl negb. cbv iota.
    rewrite Hty, Hso.
    destruct Hsorted as [->|E]; [done|].
    destruct (sorted py_lt h (x0 :: xs)); by rewrite ?E.
  - intros x1 xs' -> E. by apply sorted_first_comparison.
Qed.

Lemma copy_db_ids_compare_error_witness :
  copy_db_ids lt_by_name two_dicts_store (VRef 0) (VRef 3) []
  = (Raised CompareError, two_dicts_store).
Proof.
  apply (copy_db_ids_compare_error lt_by_name two_dicts_store 0 3 CList
           (VRef 1) [VRef 2] [VRef 4; VRef 5] []); try reflexivity.
  - simpl. lia.
  - left. by apply sorted_first_comparison.
Defined.

(** ** Calling again *)


Section InSync.
Variable py_lt : heap -> val -> val -> option bool.
Variable m : gmap loc loc.
Variable h : heap.




End InSync.







(** ** [_set_db_ids] *)

Section SetDbIdsFacts.
Variable is_sq_gr : loc -> bool.

Lemma sqa_ids_of_snoc o pairs obj sqa_id :
  sqa_ids_of o (pairs ++ [(obj, sqa_id)])
  = sqa_ids_of o pairs
    ++ (if decide (obj = o) then option_list sqa_id else []).
Proof.
  unfold sqa_ids_of. rewrite omap_app. simpl.
  destruct (decide (obj = o)); [|done]. by destruct sqa_id.
Qed.

Lemma set_db_ids_snoc st pairs pair :
  _set_db_ids is_sq_gr st (pairs ++ [pair])
  = set_db_id is_sq_gr (_set_db_ids is_sq_gr st pairs) pair.
Proof. unfold _set_db_ids. by rewrite foldl_app. Qed.

Lemma set_db_ids_ids db_id log pairs o :
  (_set_db_ids is_sq_gr (db_id, log) pairs).1 !! o
  = from_option Some (db_id !! o) (last (sqa_ids_of o pairs)).
Proof.
  induction pairs as [|[obj sqa_id] pairs IH] using rev_ind; [done|].
  rewrite set_db_ids_snoc, sqa_ids_of_snoc.
  destruct (_set_db_ids is_sq_gr (db_id, log) pairs) as [ids lg]. simpl in *.
  destruct sqa_id as [i|]; simpl.
  - destruct (decide (obj = o)) as [->|Hne].
    + by rewrite lookup_insert_eq, last_snoc.
    + by rewrite lookup_insert_ne, app_nil_r.
  - assert ((if decide (obj = o) then [] else []) = @nil Z) as ->
      by (by destruct (decide (obj = o))).
    rewrite app_nil_r, <- IH.
    destruct (ids !! obj); [done|]. by destruct (negb (is_sq_gr obj)).
Qed.
(** X11: After [_set_db_ids], the [db_id] of an object is the id of the last
    SQLAlchemy object with an id that it is paired with, and what it was
    before when there is none: an id is never cleared, and an object that
    is not in the list is left alone. *)
Theorem set_db_ids_final (db_id : gmap loc Z) (log : list loc)
    (obj_to_sqa : list (loc * option Z)) (obj : loc) :
  (_set_db_ids is_sq_gr (db_id, log) obj_to_sqa).1 !! obj
  = from_option Some (db_id !! obj) (last (sqa_ids_of obj obj_to_sqa))
  /\ (is_Some (db_id !! obj) ->
      is_Some ((_set_db_ids is_sq_gr (db_id, log) obj_to_sqa).1 !! obj))
  /\ (obj ∉ obj_to_sqa.*1 ->
      (_set_db_ids is_sq_gr (db_id, log) obj_to_sqa).1 !! obj = db_id !! obj).
Proof.
  rewrite set_db_ids_ids. split; [done|]. split.
  - intros Hsome. by destruct (last (sqa_ids_of obj obj_to_sqa)).
  - intros Hnot. assert (sqa_ids_of obj obj_to_sqa = []) as ->; [|done].
    induction obj_to_sqa as [|[o i] pairs IH]; [done|].
    apply not_elem_of_cons in Hnot as [Hne Hnot]. unfold sqa_ids_of. simpl in *.
    destruct (decide (o = obj)); [congruence|]. by apply IH.
Qed.

Lemma set_db_ids_none db_id log pairs o :
  (_set_db_ids is_sq_gr (db_id, log) pairs).1 !! o = None -> db_id !! o = None.
Proof.
  rewrite set_db_ids_ids. by destruct (last (sqa_ids_of o pairs)).
Qed.

(** X12: The warnings of [_set_db_ids]: an object is warned about only if it had
    no [db_id] before the call, is paired with a SQLAlchemy object without
    id and is no status quo generator run; and every such object that still
    has no [db_id] after the call has been warned about.  The log is only
    added to. *)
Theorem set_db_ids_warnings (db_id : gmap loc Z) (log : list loc)
    (obj_to_sqa : list (loc * option Z)) :
  exists w,
    (_set_db_ids is_sq_gr (db_id, log) obj_to_sqa).2 = log ++ w
    /\ (forall obj, obj ∈ w ->
          db_id !! obj = None /\ is_sq_gr obj = false
          /\ (obj, None) ∈ obj_to_sqa)
    /\ (forall obj, (obj, None) ∈ obj_to_sqa ->
          (_set_db_ids is_sq_gr (db_id, log) obj_to_sqa).1 !! obj = None ->
          is_sq_gr obj = false -> obj ∈ w).
Proof.
  induction obj_to_sqa as [|[o i] pairs IH] using rev_ind.
  { exists []. split; [by rewrite app_nil_r|].
    split; intros obj H; by apply elem_of_nil in H. }
  destruct IH as (w & Hlog & Hw1 & Hw2).
  rewrite set_db_ids_snoc.
  pose proof (set_db_ids_none db_id log pairs) as Hnone.
  destruct (_set_db_ids is_sq_gr (db_id, log) pairs) as [ids lg]. simpl in *.
  subst lg. destruct i as [i|]; simpl.
  - exists w. split; [done|]. split.
    + intros obj Hobj. destruct (Hw1 obj Hobj) as (? & ? & ?).
      repeat (split; [done|]). apply elem_of_app. by left.
    + intros obj Hin Hfin Hsq.
      apply elem_of_app in Hin as [Hin|Hin%list_elem_of_singleton]; [|done].
      apply Hw2; [done| |done].
      destruct (decide (o = obj)) as [->|Hne].
      * by rewrite lookup_insert_eq in Hfin.
      * by rewrite lookup_insert_ne in Hfin.
  - destruct (ids !! o) eqn:Eo.
    + exists w. split; [done|]. split.
      * intros obj Hobj. destruct (Hw1 obj Hobj) as (? & ? & ?).
        repeat (split; [done|]). apply elem_of_app. by left.
      * intros obj Hin Hfin Hsq.
        apply elem_of_app in Hin as [Hin|Hin%list_elem_of_singleton];
          [by apply Hw2|]. injection Hin as ->. simpl in Hfin. congruence.
    + destruct (is_sq_gr o) eqn:Esq; simpl.
      * exists w. split; [done|]. split.
        -- intros obj Hobj. destruct (Hw1 obj Hobj) as (? & ? & ?).
           repeat (split; [done|]). apply elem_of_app. by left.
        -- intros obj Hin Hfin Hsq.
           apply elem_of_app in Hin as [Hin|Hin%list_elem_of_singleton];
             [by apply Hw2|]. injection Hin as ->. simpl in Hfin. congruence.
      * exists (w ++ [o]). split; [by rewrite app_assoc|]. split.
        -- intros obj [Hobj|Hobj]%elem_of_app;
             [|apply list_elem_of_singleton in Hobj as ->].
           ++ destruct (Hw1 obj Hobj) as (? & ? & ?).
              repeat (split; [done|]). apply elem_of_app. by left.
           ++ split; [by apply Hnone|]. split; [done|].
              apply elem_of_app. right. by apply list_elem_of_singleton.
        -- intros obj Hin Hfin Hsq.
           apply elem_of_app in Hin as [Hin|Hin%list_elem_of_singleton].
           ++ apply elem_of_app. left. by apply Hw2.
           ++ injection Hin as ->. apply elem_of_app. right.
              by apply list_elem_of_singleton.
Qed.
End SetDbIdsFacts.

(** ** No recovery *)

(** X10: Nothing catches a failure: when a call the traversal makes, at any
    depth, does not return normally, the calls above it stop there, and the
    root call has the same outcome and leaves the same store. *)
Theorem copy_db_ids_failure_propagates py_lt (root c : call) :
  recursed_into py_lt root c ->
  fst (run py_lt c) <> Returned ->
  run py_lt root = run py_lt c.
Proof. apply recursed_into_propagate. Qed.

Lemma copy_db_ids_failure_propagates_witness :
  run lt_by_name (Call mismatch_store (VRef 0) (VRef 1) [])
  = run lt_by_name
      (Call (<[1 := OInst Obj [("_db_id", VInt 7); ("name", VInt 3)]]> mismatch_store)
         (VStr "x") (VInt 3) [KStr "name"]).
Proof.
  apply copy_db_ids_failure_propagates.
  - eapply rtc_l; [|apply rtc_refl].
    eapply calls_attr with (i := 1) (attr := "name"); [simpl; lia|by vm_compute..].
  - by vm_compute.
Defined.
